(** * SRT to WebVTT converter: a shallow embedding of [Converter.cpp]

    The development follows the source file function by function:
    [msToVttTimeString], [timeStringToMs], [htmlEncodeUtf8], the line loop
    of [convertFile] and the directory walk of [convertDirectory].

    - a [wchar_t] is its code as a [Z], a [std::wstring] a list of them;
    - a [std::string] (paths, messages) is a [string];
    - an [int] is a [Z] kept in 32 bits by [wrap];
    - a C++ exception is the left injection of a sum;
    - what a file contains is the stream of lines that [getline] delivers,
      what a directory contains the list of entries that [readdir] delivers.

    The name of the output file and the messages on the standard output are
    left out: no property below depends on them. *)

From Stdlib Require Import ZArith List String Ascii Bool Lia.
Import ListNotations.

Local Open Scope Z_scope.

(** ** Wide strings *)

Abbreviation wchar := Z (only parsing).
Abbreviation wstring := (list Z) (only parsing).

(** [L "abc"] is the wide literal [L"abc"]. *)
Fixpoint L (s : string) : wstring :=
  match s with
  | EmptyString => []
  | String a s' => Z.of_N (N_of_ascii a) :: L s'
  end.

(** ** The [int] type *)

Module Int.

Definition min_int : Z := -2147483648.
Definition max_int : Z := 2147483647.

Definition in_range (z : Z) : Prop := min_int <= z <= max_int.
Definition in_rangeb (z : Z) : bool := (min_int <=? z) && (z <=? max_int).

(** Two's complement reduction to 32 bits. *)
Definition wrap (z : Z) : Z := (z + 2147483648) mod 4294967296 - 2147483648.

Definition add (a b : Z) : Z := wrap (a + b).
Definition sub (a b : Z) : Z := wrap (a - b).
Definition mul (a b : Z) : Z := wrap (a * b).
(** [/] on [int] truncates toward zero. *)
Definition div (a b : Z) : Z := wrap (Z.quot a b).

End Int.

(** ** Exceptions *)

Inductive exn : Type :=
| invalid_argument (what : string)
| out_of_range (what : string)
| runtime_error (what : string).

Definition what (e : exn) : string :=
  match e with
  | invalid_argument w | out_of_range w | runtime_error w => w
  end.

Definition result (A : Type) : Type := (exn + A)%type.

Definition ret {A} (a : A) : result A := inr a.
Definition throw {A} (e : exn) : result A := inl e.
Definition bind {A B} (m : result A) (k : A -> result B) : result B :=
  match m with
  | inl e => inl e
  | inr a => k a
  end.

Notation "x <- m ;; k" := (bind m (fun x => k))
  (at level 61, m at next level, right associativity).

(** ** [std::to_wstring] *)

Definition is_digit (c : wchar) : bool := (48 <=? c) && (c <=? 57).

(** Decimal digits of a non-negative number, most significant first.  The
    fuel bounds the number of digits after the first one. *)
Fixpoint to_digits (fuel : nat) (n : Z) (acc : wstring) : wstring :=
  let acc' := (48 + n mod 10) :: acc in
  match fuel with
  | O => acc'
  | S f => if n <? 10 then acc' else to_digits f (n / 10) acc'
  end.

Definition to_wstring (n : Z) : wstring :=
  if n <? 0
  then 45 :: to_digits (Z.to_nat (Z.log2 (- n))) (- n) []
  else to_digits (Z.to_nat (Z.log2 n)) n [].

(** ** [std::stoi] and [substr] *)

Definition iswspace (c : wchar) : bool :=
  (c =? 32) || ((9 <=? c) && (c <=? 13)).

Fixpoint skip_space (s : wstring) : wstring :=
  match s with
  | c :: s' => if iswspace c then skip_space s' else s
  | [] => []
  end.

(** Value of the longest prefix of decimal digits, accumulated from [acc]. *)
Fixpoint digits_val (acc : Z) (s : wstring) : Z :=
  match s with
  | c :: s' => if is_digit c then digits_val (10 * acc + (c - 48)) s' else acc
  | [] => acc
  end.

Definition starts_with_digit (s : wstring) : bool :=
  match s with
  | c :: _ => is_digit c
  | [] => false
  end.

(** [stoi]: leading white space, an optional sign, then decimal digits; it
    throws [invalid_argument] when there is no digit and [out_of_range] when
    the value does not fit an [int]. *)
Definition stoi (s : wstring) : result Z :=
  let s1 := skip_space s in
  let neg := match s1 with c :: _ => c =? 45 | [] => false end in
  let s2 :=
    match s1 with
    | c :: r => if (c =? 45) || (c =? 43) then r else s1
    | [] => s1
    end in
  if starts_with_digit s2 then
    let v := digits_val 0 s2 in
    let v := if neg then - v else v in
    if Int.in_rangeb v then ret v else throw (out_of_range "stoi")
  else throw (invalid_argument "stoi").

(** [s.substr(pos, len)] throws when [pos] is past the end. *)
Definition substr (s : wstring) (pos len : nat) : result wstring :=
  if (List.length s <? pos)%nat
  then throw (out_of_range "basic_string::substr")
  else ret (firstn len (skipn pos s)).

(** [s.substr(pos)]: up to the end. *)
Definition substr_from (s : wstring) (pos : nat) : result wstring :=
  if (List.length s <? pos)%nat
  then throw (out_of_range "basic_string::substr")
  else ret (skipn pos s).

(** ** [Converter::timeStringToMs] *)

Definition timeStringToMs (time : wstring) : result Z :=
  hours <- bind (substr time 0 2) stoi ;;
  minutes <- bind (substr time 3 2) stoi ;;
  seconds <- bind (substr time 6 2) stoi ;;
  milliseconds <- bind (substr_from time 9) stoi ;;
  ret (Int.add (Int.add (Int.add (Int.mul hours 3600000)
                                 (Int.mul minutes 60000))
                        (Int.mul seconds 1000))
               milliseconds).

(** ** [Converter::msToVttTimeString] *)

Definition msToVttTimeString (ms : Z) : wstring :=
  let hours := Int.div ms 3600000 in
  let ms := Int.sub ms (Int.mul hours 3600000) in
  let minutes := Int.div ms 60000 in
  let ms := Int.sub ms (Int.mul minutes 60000) in
  let seconds := Int.div ms 1000 in
  let ms := Int.sub ms (Int.mul seconds 1000) in
  (if hours <? 10 then L "0" else L EmptyString) ++ to_wstring hours
    ++ L ":" ++ (if minutes <? 10 then L "0" else L EmptyString) ++ to_wstring minutes
    ++ L ":" ++ (if seconds <? 10 then L "0" else L EmptyString) ++ to_wstring seconds
    ++ L "." ++ (if ms <? 100 then L "0" else L EmptyString)
    ++ (if ms <? 10 then L "0" else L EmptyString) ++ to_wstring ms.

(** ** [Converter::htmlEncodeUtf8] *)

(** The cast [(unsigned int)str[i]]. *)
Definition unsigned_int (c : wchar) : Z := c mod 4294967296.

(** [str.replace(i, 1, replacement)]. *)
Definition replace1 (str : wstring) (i : nat) (replacement : wstring) : wstring :=
  firstn i str ++ replacement ++ skipn (S i) str.

(** The [for] loop over the index [i], one iteration per unit of fuel; the
    string is rewritten in place and [i] jumps over what was inserted. *)
Fixpoint htmlEncodeLoop (fuel : nat) (i : nat) (str : wstring) : wstring :=
  match fuel with
  | O => str
  | S fuel' =>
      match nth_error str i with
      | None => str
      | Some c =>
          if (160 <=? c) && (c <=? 255) then
            let replacement := L "&#" ++ to_wstring (unsigned_int c) ++ L ";" in
            let str' := replace1 str i replacement in
            let i' := (i + (List.length replacement - 1))%nat in
            htmlEncodeLoop fuel' (S i') str'
          else htmlEncodeLoop fuel' (S i) str
      end
  end.

(** Every iteration consumes one character of the original string, so its
    length is enough fuel ([htmlEncodeLoop_spec] below). *)
Definition htmlEncodeUtf8 (str : wstring) : wstring :=
  htmlEncodeLoop (List.length str) 0 str.

(** ** The two regular expressions of [convertFile]

    Both are matched against the whole line ([regex_match]).  [\d+] is a
    repetition of one class; the time frame is a fixed sequence of classes
    and literal characters, so its two groups sit at fixed positions. *)

Inductive atom : Type :=
| Digit               (* \d *)
| Chr (c : wchar).    (* a literal character *)

Definition atom_match (a : atom) (c : wchar) : bool :=
  match a with
  | Digit => is_digit c
  | Chr x => c =? x
  end.

Fixpoint match_atoms (p : list atom) (s : wstring) : bool :=
  match p, s with
  | [], [] => true
  | a :: p', c :: s' => atom_match a c && match_atoms p' s'
  | _, _ => false
  end.

(** [a+] against the whole string. *)
Definition match_plus (a : atom) (s : wstring) : bool :=
  match s with
  | [] => false
  | _ :: _ => forallb (atom_match a) s
  end.

Definition lit (s : string) : list atom := map Chr (L s).

(** [\d\d:\d\d:\d\d,\d{3}] *)
Definition timeAtoms : list atom :=
  [Digit; Digit] ++ lit ":" ++ [Digit; Digit] ++ lit ":" ++ [Digit; Digit]
    ++ lit "," ++ repeat Digit 3.

(** [L"\\d+"] *)
Definition rgxDialogNumber (sLine : wstring) : bool := match_plus Digit sLine.

(** [L"(\\d\\d:\\d\\d:\\d\\d,\\d{3}) --> (\\d\\d:\\d\\d:\\d\\d,\\d{3})"] *)
Definition rgxTimeFrameAtoms : list atom := timeAtoms ++ lit " --> " ++ timeAtoms.

(** [regex_match(sLine, match, rgxTimeFrame)]: [None] is the empty [match],
    otherwise the two sub-matches [match[1]] and [match[2]]. *)
Definition rgxTimeFrame (sLine : wstring) : option (wstring * wstring) :=
  if match_atoms rgxTimeFrameAtoms sLine then
    let w := List.length timeAtoms in
    Some (firstn w sLine, firstn w (skipn (w + List.length (lit " --> ")) sLine))
  else None.

(** ** Helpers of [Utils.h] *)

Fixpoint is_prefix (p s : wstring) : bool :=
  match p, s with
  | [], _ => true
  | a :: p', b :: s' => (a =? b) && is_prefix p' s'
  | _ :: _, [] => false
  end.

Fixpoint wstr_replace_go (skip : nat) (subject search replace : wstring) : wstring :=
  match subject with
  | [] => []
  | c :: rest =>
      match skip with
      | S k => wstr_replace_go k rest search replace
      | O =>
          if is_prefix search subject
          then replace ++ wstr_replace_go (List.length search - 1) rest search replace
          else c :: wstr_replace_go O rest search replace
      end
  end.

(** Modelled from the spec: [Utils::wstr_replace] is declared in [Utils.h],
    which is not among the sources.  The spec describes its use as "simply
    replace the comma separators with periods": every occurrence of [search]
    in [subject], from left to right, becomes [replace]. *)
Definition wstr_replace (subject search replace : wstring) : wstring :=
  match search with
  | [] => subject
  | _ :: _ => wstr_replace_go 0 subject search replace
  end.

Fixpoint rtrim_rev (r : list ascii) (c : ascii) : list ascii :=
  match r with
  | a :: r' => if Ascii.eqb a c then rtrim_rev r' c else r
  | [] => []
  end.

(** Modelled from the spec: [Utils::rtrim] is declared in [Utils.h], which
    is not among the sources.  Its call sites say "strip trailing slashes":
    the trailing occurrences of [c] are removed. *)
Definition rtrim (s : string) (c : ascii) : string :=
  string_of_list_ascii (rev (rtrim_rev (rev (list_ascii_of_string s)) c)).

(** ** [Converter::convertFile] *)

Record Converter : Type := mkConverter {
  _timeOffsetMs : Z;
  _outputDir : string;
  _quiet : bool
}.

(** [Converter::Converter] *)
Definition Converter_new (timeOffsetMs : Z) (outputDir : string) (quiet : bool)
  : Converter :=
  mkConverter timeOffsetMs (rtrim (rtrim outputDir "/"%char) "\"%char) quiet.

(** What the input stream delivers to the loop of [convertFile]: the next
    line, the end of the file, or an exception that escapes from the
    library while the next line is obtained. *)
Inductive wifstream : Type :=
| Eof
| Line (sLine : wstring) (rest : wifstream)
| Fault (e : exn).

Fixpoint stream_of_lines (ls : list wstring) : wifstream :=
  match ls with
  | [] => Eof
  | l :: ls' => Line l (stream_of_lines ls')
  end.

Definition endl : wstring := [10].

(** The branch taken when [_timeOffsetMs != 0]: parse both sub-matches,
    shift, floor at zero, format. *)
Definition offsetTimeFrame (timeOffsetMs : Z) (m1 m2 : wstring) : result wstring :=
  msStartTime <- timeStringToMs m1 ;;
  msEndTime <- timeStringToMs m2 ;;
  let msStartTime := Int.add msStartTime timeOffsetMs in
  let msEndTime := Int.add msEndTime timeOffsetMs in
  let msStartTime := if msStartTime <? 0 then 0 else msStartTime in
  let msEndTime := if msEndTime <? 0 then 0 else msEndTime in
  ret (msToVttTimeString msStartTime ++ L " --> " ++ msToVttTimeString msEndTime).

(** The branch taken when [_timeOffsetMs == 0]. *)
Definition replaceCommas (sLine : wstring) : wstring :=
  wstr_replace sLine (L ",") (L ".").

(** One iteration of the line loop: [None] is [continue] (nothing is
    written), [Some s] is the line handed to [outfile << sLine << endl]. *)
Definition convertLine (c : Converter) (sLine : wstring) : result (option wstring) :=
  if rgxDialogNumber sLine then ret None
  else
    match rgxTimeFrame sLine with
    | Some (m1, m2) =>
        if negb (_timeOffsetMs c =? 0) then
          s <- offsetTimeFrame (_timeOffsetMs c) m1 m2 ;; ret (Some s)
        else ret (Some (replaceCommas sLine))
    | None => ret (Some (htmlEncodeUtf8 sLine))
    end.

(** The loop, threading what has been written to [outfile] so far. *)
Fixpoint convertLoop (c : Converter) (infile : wifstream) (outfile : wstring)
  : option exn * wstring :=
  match infile with
  | Eof => (None, outfile)
  | Fault e => (Some e, outfile)
  | Line sLine rest =>
      match convertLine c sLine with
      | inl e => (Some e, outfile)
      | inr None => convertLoop c rest outfile
      | inr (Some s) => convertLoop c rest (outfile ++ s ++ endl)
      end
  end.

Record FileResult : Type := mkFileResult {
  ret_code : Z;
  outfile : wstring;
  cerr : string
}.

Definition dquote : string := String (ascii_of_nat 34) EmptyString.
Definition newline : string := String (ascii_of_nat 10) EmptyString.

Definition header : wstring := L "WEBVTT" ++ endl ++ endl.

Definition convertFile (c : Converter) (filepath : string) (infile : wifstream)
  : FileResult :=
  match convertLoop c infile header with
  | (Some e, out) =>
      mkFileResult 1 out
        ("An error occurred converting " ++ dquote ++ filepath ++ dquote ++ ":"
           ++ newline ++ what e ++ newline)%string
  | (None, out) => mkFileResult 0 out EmptyString
  end.

(** ** [Converter::convertDirectory] *)

(** The branch of the [#if] for systems other than Windows. *)
Definition DIR_SEPARATOR : string := "/".

(** [std::string::npos], the largest [size_t] (64 bits). *)
Definition npos : Z := 18446744073709551615.
(** Addition on [size_t]: it wraps around. *)
Definition size_add (a b : Z) : Z := (a + b) mod 18446744073709551616.

Fixpoint find_last_of_from (s : string) (c : ascii) (i last : Z) : Z :=
  match s with
  | EmptyString => last
  | String a s' => find_last_of_from s' c (i + 1) (if Ascii.eqb a c then i else last)
  end.

(** [s.find_last_of(c)]: the position of the last [c], or [npos]. *)
Definition find_last_of (s : string) (c : ascii) : Z :=
  find_last_of_from s c 0 npos.

(** [s.substr(pos)] for [pos <= s.size()]. *)
Definition str_substr_from (s : string) (pos : Z) : string :=
  String.substring (Z.to_nat pos) (String.length s - Z.to_nat pos) s.

(** [item.substr(item.find_last_of(".") + 1)] *)
Definition ext_of (item : string) : string :=
  str_substr_from item (size_add (find_last_of item "."%char) 1).

Definition is_srt_ext (ext : string) : bool :=
  String.eqb ext "srt" || String.eqb ext "SRT".

#[local] Set Warnings "-register-all".

(** A directory entry as [readdir] returns it, together with what the code
    finds behind the path it builds for it: the stream of a file, or the
    entries of a subdirectory ([None] when [opendir] fails on it).  The last
    constructor stands for every other [d_type]. *)
Inductive dirent : Type :=
| DT_REG (d_name : string) (content : wifstream)
| DT_LNK (d_name : string) (content : wifstream)
| DT_DIR (d_name : string) (sub : option (list dirent))
| DT_OTHER (d_name : string).

Definition d_name_of (ent : dirent) : string :=
  match ent with
  | DT_REG n _ | DT_LNK n _ | DT_DIR n _ | DT_OTHER n => n
  end.

(** What a walk does, in order. *)
Inductive event : Type :=
| Converted (filepath : string) (r : FileResult)
| Unreadable (dirpath : string).

Definition strip_slashes (dirpath : string) : string :=
  rtrim (rtrim dirpath "/"%char) "\"%char.

(** The body of the [for] loop for one entry: the code added to [nRetCodes]
    and the events.  The [DT_DIR] case is the recursive call of
    [convertDirectory], see [walkEntry_dir]. *)
Fixpoint walkEntry (c : Converter) (recursive : bool) (dirpath : string)
  (ent : dirent) {struct ent} : Z * list event :=
  match ent with
  | DT_LNK item content
  | DT_REG item content =>
      if is_srt_ext (ext_of item) then
        let filepath := (dirpath ++ DIR_SEPARATOR ++ item)%string in
        let r := convertFile c filepath content in
        (ret_code r, [Converted filepath r])
      else (0, [])
  | DT_DIR item sub =>
      if recursive && negb (String.eqb item ".") && negb (String.eqb item "..") then
        let subdir := strip_slashes (dirpath ++ DIR_SEPARATOR ++ item)%string in
        match sub with
        | None => (1, [Unreadable subdir])
        | Some ents =>
            let '(nRetCodes, evs) :=
              (fix loop (ents : list dirent) (nRetCodes : Z) : Z * list event :=
                 match ents with
                 | [] => (nRetCodes, [])
                 | ent' :: rest =>
                     let '(code, evs1) := walkEntry c recursive subdir ent' in
                     let '(n, evs2) := loop rest (Int.add nRetCodes code) in
                     (n, evs1 ++ evs2)
                 end) ents 0 in
            ((if nRetCodes =? 0 then 0 else 1), evs)
        end
      else (0, [])
  | DT_OTHER _ => (0, [])
  end.

(** The [for] loop of [convertDirectory] over the entries [readdir] returns. *)
Fixpoint walkLoop (c : Converter) (recursive : bool) (dirpath : string)
  (ents : list dirent) (nRetCodes : Z) : Z * list event :=
  match ents with
  | [] => (nRetCodes, [])
  | ent :: rest =>
      let '(code, evs1) := walkEntry c recursive dirpath ent in
      let '(n, evs2) := walkLoop c recursive dirpath rest (Int.add nRetCodes code) in
      (n, evs1 ++ evs2)
  end.

(** [dir] is what [opendir] returns for the stripped path. *)
Definition convertDirectory (c : Converter) (dirpath : string) (recursive : bool)
  (dir : option (list dirent)) : Z * list event :=
  let dirpath := strip_slashes dirpath in
  match dir with
  | None => (1, [Unreadable dirpath])
  | Some ents =>
      let '(nRetCodes, evs) := walkLoop c recursive dirpath ents 0 in
      ((if nRetCodes =? 0 then 0 else 1), evs)
  end.


(** ** The output path of [convertFile] *)

(** [tolower] on the characters of the "C" locale. *)
Definition to_lower (a : ascii) : ascii :=
  let n := nat_of_ascii a in
  if ((65 <=? n) && (n <=? 90))%nat then ascii_of_nat (n + 32) else a.

(** A whole match of [\.srt] under [regex_constants::icase]. *)
Definition is_dot_srt (s : string) : bool :=
  match s with
  | String d (String x (String y (String z EmptyString))) =>
      Ascii.eqb d "." && Ascii.eqb (to_lower x) "s"
        && Ascii.eqb (to_lower y) "r" && Ascii.eqb (to_lower z) "t"
  | _ => false
  end.

(** [regex_replace(filepath, regex("\\.srt$", icase), string(""))]: the
    pattern is anchored at the end of the string, so the only possible match
    is a suffix of four characters, and it is removed. *)
Fixpoint regex_replace_srt (filepath : string) : string :=
  match filepath with
  | EmptyString => EmptyString
  | String a rest =>
      if is_dot_srt filepath then EmptyString else String a (regex_replace_srt rest)
  end.

(** [s.substr(s.find_last_of(c) + 1)] *)
Definition after_last (c : ascii) (s : string) : string :=
  str_substr_from s (size_add (find_last_of s c) 1).

(** The value of [outpath] when [convertFile] opens the output file.  The
    test for the output directory and its creation act on the file system
    only. *)
Definition outputPath (c : Converter) (filepath : string) : string :=
  let outpath := (regex_replace_srt filepath ++ ".vtt")%string in
  match _outputDir c with
  | EmptyString => outpath
  | String _ _ =>
      (_outputDir c ++ DIR_SEPARATOR ++ after_last "/" outpath)%string
  end.

(** ** Streams and listings built from others *)

(** The lines [ls], then whatever [rest] delivers. *)
Fixpoint lines_then (ls : list wstring) (rest : wifstream) : wifstream :=
  match ls with
  | [] => rest
  | l :: ls' => Line l (lines_then ls' rest)
  end.

(** The same entry with nothing known about what is below it. *)
Definition forget_sub (ent : dirent) : dirent :=
  match ent with
  | DT_DIR item _ => DT_DIR item None
  | _ => ent
  end.

(** The lines that the loop hands to [outfile << sLine << endl], in order,
    for an input of the lines [ls]. *)
Definition written_lines (c : Converter) (ls : list wstring) : list wstring :=
  flat_map (fun sLine => match convertLine c sLine with
                         | inr (Some s) => [s]
                         | _ => []
                         end) ls.

(** * Definitions that follow the wording of the specification

    They are compared with the definitions above, which follow the code. *)

(** "Zero-padded to width [w]". *)
Definition zero_pad (w : nat) (s : wstring) : wstring :=
  repeat 48 (w - List.length s) ++ s.

(** "hours/minutes/seconds/milliseconds via integer division and remainder
    (base 3600000, 60000, 1000) ... joined as [HH:MM:SS.mmm]". *)
Definition format_fields (ms : Z) : wstring :=
  zero_pad 2 (to_wstring (ms / 3600000))
    ++ L ":" ++ zero_pad 2 (to_wstring (ms mod 3600000 / 60000))
    ++ L ":" ++ zero_pad 2 (to_wstring (ms mod 60000 / 1000))
    ++ L "." ++ zero_pad 3 (to_wstring (ms mod 1000)).

(** "The comma separator replaced by a period". *)
Definition comma_to_period (s : wstring) : wstring :=
  map (fun c => if c =? 44 then 46 else c) s.

(** "[clamp(x, min=0)]". *)
Definition clamp0 (x : Z) : Z := Z.max 0 x.

(** "For any character whose value lies in the inclusive range [160, 255],
    replace it with the decimal numeric character reference; all other
    characters pass through unchanged". *)
Definition in_latin1_supplement (c : wchar) : bool := (160 <=? c) && (c <=? 255).

Definition escape_char (c : wchar) : wstring :=
  if in_latin1_supplement c then L "&#" ++ to_wstring c ++ L ";" else [c].

Definition html_escape (s : wstring) : wstring := flat_map escape_char s.

(** The number written in the [len] characters of [t] from [pos]. *)
Definition field (t : wstring) (pos len : nat) : Z :=
  digits_val 0 (firstn len (skipn pos t)).

Definition minutes_field (t : wstring) : Z := field t 3 2.
Definition seconds_field (t : wstring) : Z := field t 6 2.

(** "An exception occurs during that file's conversion": the exception, if
    any, that leaves the [try] block of [convertFile]. *)
Definition exception_in (c : Converter) (infile : wifstream) : option exn :=
  fst (convertLoop c infile header).

(** The first fault of the input stream, if it has one. *)
Fixpoint stream_fault (infile : wifstream) : option exn :=
  match infile with
  | Eof => None
  | Line _ rest => stream_fault rest
  | Fault e => Some e
  end.

(** "A file conversion failed" or "a recursive subdirectory conversion
    failed", for one entry of the directory [dirpath]. *)
Definition entry_failed (c : Converter) (recursive : bool) (dirpath : string)
  (ent : dirent) : Prop :=
  match ent with
  | DT_REG item content
  | DT_LNK item content =>
      is_srt_ext (ext_of item) = true
      /\ ret_code (convertFile c (dirpath ++ DIR_SEPARATOR ++ item)%string content) <> 0
  | DT_DIR item sub =>
      recursive = true /\ item <> "."%string /\ item <> ".."%string
      /\ fst (convertDirectory c (dirpath ++ DIR_SEPARATOR ++ item)%string
                recursive sub) <> 0
  | DT_OTHER _ => False
  end.

(** The paths handed to [convertFile] during a walk, in order. *)
Fixpoint converted_paths (evs : list event) : list string :=
  match evs with
  | [] => []
  | Converted filepath _ :: evs' => filepath :: converted_paths evs'
  | Unreadable _ :: evs' => converted_paths evs'
  end.

Fixpoint contains_char (c : ascii) (s : string) : bool :=
  match s with
  | EmptyString => false
  | String a s' => Ascii.eqb a c || contains_char c s'
  end.

(** "The name's final extension (the substring after the last '.') is
    exactly "srt" or exactly "SRT"". *)
Definition has_srt_extension (item : string) : Prop :=
  exists base : string,
    item = (base ++ ".srt")%string \/ item = (base ++ ".SRT")%string.

(** A directory for the examples: the two entries every directory has, files
    of several names and types, and one subdirectory. *)
Definition sample_listing : list dirent :=
  [ DT_DIR "." None;
    DT_DIR ".." None;
    DT_REG "a.srt" Eof;
    DT_LNK "b.SRT" Eof;
    DT_REG "c.Srt" Eof;
    DT_REG "d.txt" Eof;
    DT_OTHER "e.srt";
    DT_DIR "season1" (Some [DT_DIR "." None; DT_DIR ".." None; DT_REG "x.srt" Eof]);
    DT_REG "srt" Eof ].

(** * Properties *)

(** ** Arithmetic on [int] *)

Lemma wrap_id (z : Z) : Int.in_range z -> Int.wrap z = z.
Proof.
  unfold Int.in_range, Int.min_int, Int.max_int, Int.wrap. intros H.
  rewrite Z.mod_small; lia.
Qed.

Lemma in_rangeb_true (z : Z) : Int.in_range z -> Int.in_rangeb z = true.
Proof.
  unfold Int.in_range, Int.in_rangeb. intros [H1 H2].
  apply andb_true_intro. split; apply Z.leb_le; assumption.
Qed.

(** ** Decimal digits *)

Lemma is_digit_iff (c : wchar) : is_digit c = true <-> 48 <= c <= 57.
Proof.
  unfold is_digit. rewrite andb_true_iff, !Z.leb_le. reflexivity.
Qed.

Lemma to_digits_small (f : nat) (n : Z) (acc : wstring) :
  n < 10 -> to_digits f n acc = (48 + n mod 10) :: acc.
Proof.
  intros H. destruct f as [|f]; simpl; [reflexivity|].
  apply Z.ltb_lt in H. rewrite H. reflexivity.
Qed.

Lemma to_digits_step (f : nat) (n : Z) (acc : wstring) :
  10 <= n -> to_digits (S f) n acc = to_digits f (n / 10) ((48 + n mod 10) :: acc).
Proof.
  intros H. simpl. apply Z.ltb_ge in H. rewrite H. reflexivity.
Qed.

Lemma log2_fuel (n k : Z) :
  0 <= k -> 2 ^ k <= n -> exists f, Z.to_nat (Z.log2 n) = (Z.to_nat k + f)%nat.
Proof.
  intros Hk H.
  assert (Hl : k <= Z.log2 n).
  { rewrite <- (Z.log2_pow2 k Hk). apply Z.log2_le_mono. exact H. }
  exists (Z.to_nat (Z.log2 n - k)). lia.
Qed.

Lemma to_wstring_1 (n : Z) : 0 <= n < 10 -> to_wstring n = [48 + n].
Proof.
  intros H. unfold to_wstring.
  replace (n <? 0) with false by (symmetry; apply Z.ltb_ge; lia).
  rewrite to_digits_small by lia. rewrite Z.mod_small by lia. reflexivity.
Qed.

Lemma to_wstring_2 (n : Z) :
  10 <= n < 100 -> to_wstring n = [48 + n / 10; 48 + n mod 10].
Proof.
  intros H. unfold to_wstring.
  replace (n <? 0) with false by (symmetry; apply Z.ltb_ge; lia).
  destruct (log2_fuel n 3) as [f Hf]; [lia | simpl; lia |].
  rewrite Hf. change (Z.to_nat 3 + f)%nat with (S (S (S f))).
  rewrite to_digits_step by lia.
  assert (0 <= n / 10 < 10).
  { split; [apply Z.div_pos; lia | apply Z.div_lt_upper_bound; lia]. }
  rewrite to_digits_small by lia.
  rewrite (Z.mod_small (n / 10)) by lia. reflexivity.
Qed.

Lemma to_wstring_3 (n : Z) :
  100 <= n < 1000 ->
  to_wstring n = [48 + n / 100; 48 + (n / 10) mod 10; 48 + n mod 10].
Proof.
  intros H. unfold to_wstring.
  replace (n <? 0) with false by (symmetry; apply Z.ltb_ge; lia).
  destruct (log2_fuel n 6) as [f Hf]; [lia | simpl; lia |].
  rewrite Hf. change (Z.to_nat 6 + f)%nat with (S (S (S (S (S (S f)))))).
  assert (10 <= n / 10 < 100).
  { split; [apply Z.div_le_lower_bound; lia | apply Z.div_lt_upper_bound; lia]. }
  assert (0 <= n / 10 / 10 < 10).
  { split; [apply Z.div_pos; lia | apply Z.div_lt_upper_bound; lia]. }
  rewrite to_digits_step by lia.
  rewrite to_digits_step by lia.
  rewrite to_digits_small by lia.
  rewrite (Z.mod_small (n / 10 / 10)) by lia.
  rewrite Z.div_div by lia. reflexivity.
Qed.

Lemma to_digits_acc (f : nat) : forall (n : Z) (acc : wstring),
  to_digits f n acc = to_digits f n [] ++ acc.
Proof.
  induction f as [|f IH]; intros n acc; simpl; [reflexivity|].
  destruct (n <? 10); [reflexivity|].
  rewrite (IH _ (_ :: acc)), (IH _ [_]), <- app_assoc. reflexivity.
Qed.

Lemma to_digits_length (f : nat) (n : Z) (acc : wstring) :
  (S (List.length acc) <= List.length (to_digits f n acc))%nat.
Proof.
  revert n acc. induction f as [|f IH]; intros n acc; simpl; [lia|].
  destruct (n <? 10); simpl; [lia|].
  specialize (IH (n / 10) ((48 + n mod 10) :: acc)). simpl in IH. lia.
Qed.

Lemma to_digits_all_digits (f : nat) : forall n : Z,
  0 <= n -> Forall (fun c => is_digit c = true) (to_digits f n []).
Proof.
  assert (D : forall n, is_digit (48 + n mod 10) = true).
  { intros n. apply is_digit_iff. pose proof (Z.mod_pos_bound n 10). lia. }
  induction f as [|f IH]; intros n Hn; simpl.
  - constructor; [apply D | constructor].
  - destruct (n <? 10).
    + constructor; [apply D | constructor].
    + rewrite to_digits_acc. apply Forall_app. split.
      * apply IH. apply Z.div_pos; lia.
      * constructor; [apply D | constructor].
Qed.

Lemma digits_val_snoc (l : wstring) : forall (a d : Z),
  Forall (fun c => is_digit c = true) l -> is_digit d = true ->
  digits_val a (l ++ [d]) = 10 * digits_val a l + (d - 48).
Proof.
  induction l as [|c l IH]; intros a d Hl Hd; simpl.
  - rewrite Hd. reflexivity.
  - inversion Hl as [|? ? Hc Hl']; subst. rewrite Hc. apply IH; assumption.
Qed.

Lemma digits_val_small (n : Z) :
  0 <= n < 10 -> digits_val 0 [48 + n mod 10] = n.
Proof.
  intros H. rewrite Z.mod_small by lia. cbn [digits_val].
  replace (is_digit (48 + n)) with true by (symmetry; apply is_digit_iff; lia).
  lia.
Qed.

(** The fuel of [to_wstring] is enough: reading the digits back gives the
    number. *)
Lemma to_digits_val (f : nat) : forall n : Z,
  0 <= n < 2 ^ (Z.of_nat f + 1) -> digits_val 0 (to_digits f n []) = n.
Proof.
  induction f as [|f IH]; intros n Hn.
  - change (2 ^ (Z.of_nat 0 + 1)) with 2 in Hn.
    rewrite to_digits_small by lia. apply digits_val_small. lia.
  - destruct (Z.lt_ge_cases n 10) as [Hlt|Hge].
    + rewrite to_digits_small by lia. apply digits_val_small. lia.
    + rewrite to_digits_step by lia. rewrite to_digits_acc.
      assert (Hq : 0 <= n / 10 < 2 ^ (Z.of_nat f + 1)).
      { split; [apply Z.div_pos; lia|].
        apply Z.div_lt_upper_bound; [lia|].
        replace (Z.of_nat (S f) + 1) with (Z.succ (Z.of_nat f + 1)) in Hn by lia.
        rewrite Z.pow_succ_r in Hn by lia. lia. }
      rewrite digits_val_snoc.
      * rewrite (IH _ Hq). pose proof (Z.div_mod n 10). lia.
      * apply to_digits_all_digits. lia.
      * apply is_digit_iff. pose proof (Z.mod_pos_bound n 10). lia.
Qed.

Lemma to_wstring_val (n : Z) : 0 <= n -> digits_val 0 (to_wstring n) = n.
Proof.
  intros Hn. unfold to_wstring.
  replace (n <? 0) with false by (symmetry; apply Z.ltb_ge; lia).
  apply to_digits_val. split; [lia|].
  destruct (Z.eq_dec n 0) as [->|Hz]; [reflexivity|].
  rewrite Z2Nat.id by apply Z.log2_nonneg.
  replace (Z.log2 n + 1) with (Z.succ (Z.log2 n)) by lia.
  apply Z.log2_spec. lia.
Qed.

Lemma to_wstring_all_digits (n : Z) :
  0 <= n -> Forall (fun c => is_digit c = true) (to_wstring n).
Proof.
  intros Hn. unfold to_wstring.
  replace (n <? 0) with false by (symmetry; apply Z.ltb_ge; lia).
  apply to_digits_all_digits. exact Hn.
Qed.

(** A number of at least [10 ^ k] has more than [k] digits, for the two
    widths the formatter pads to. *)
Lemma to_wstring_length_ge2 (n : Z) :
  10 <= n -> (2 <= List.length (to_wstring n))%nat.
Proof.
  intros H. unfold to_wstring.
  replace (n <? 0) with false by (symmetry; apply Z.ltb_ge; lia).
  destruct (log2_fuel n 3) as [f Hf]; [lia | simpl; lia |].
  rewrite Hf. change (Z.to_nat 3 + f)%nat with (S (S (S f))).
  rewrite to_digits_step by lia.
  pose proof (to_digits_length (S (S f)) (n / 10) [48 + n mod 10]) as HL.
  simpl in HL. exact HL.
Qed.

Lemma to_wstring_length_ge3 (n : Z) :
  100 <= n -> (3 <= List.length (to_wstring n))%nat.
Proof.
  intros H. unfold to_wstring.
  replace (n <? 0) with false by (symmetry; apply Z.ltb_ge; lia).
  destruct (log2_fuel n 6) as [f Hf]; [lia | simpl; lia |].
  rewrite Hf. change (Z.to_nat 6 + f)%nat with (S (S (S (S (S (S f)))))).
  assert (10 <= n / 10) by (apply Z.div_le_lower_bound; lia).
  rewrite to_digits_step by lia.
  rewrite to_digits_step by lia.
  match goal with |- (_ <= List.length (to_digits ?g ?m ?a))%nat =>
    pose proof (to_digits_length g m a) as HL end.
  simpl in HL. exact HL.
Qed.

(** ** Formatting a time *)

Lemma pad2_code_spec (n : Z) :
  0 <= n ->
  (if n <? 10 then L "0" else L EmptyString) ++ to_wstring n
  = zero_pad 2 (to_wstring n).
Proof.
  intros Hn. unfold zero_pad. destruct (Z.ltb_spec n 10) as [Hlt|Hge].
  - rewrite to_wstring_1 by lia. reflexivity.
  - pose proof (to_wstring_length_ge2 n Hge) as HL.
    replace (2 - List.length (to_wstring n))%nat with 0%nat by lia. reflexivity.
Qed.

Lemma pad3_code_spec (n : Z) :
  0 <= n ->
  (if n <? 100 then L "0" else L EmptyString)
    ++ (if n <? 10 then L "0" else L EmptyString) ++ to_wstring n
  = zero_pad 3 (to_wstring n).
Proof.
  intros Hn. unfold zero_pad.
  destruct (Z.ltb_spec n 10) as [Hlt|Hge].
  - replace (n <? 100) with true by (symmetry; apply Z.ltb_lt; lia).
    rewrite to_wstring_1 by lia. reflexivity.
  - destruct (Z.ltb_spec n 100) as [Hlt|Hge'].
    + rewrite to_wstring_2 by lia. reflexivity.
    + pose proof (to_wstring_length_ge3 n Hge') as HL.
      replace (3 - List.length (to_wstring n))%nat with 0%nat by lia. reflexivity.
Qed.

(** Division and remainder on [int], for a non-negative dividend: nothing
    wraps. *)
Lemma int_div_nonneg (a b : Z) :
  0 <= a <= Int.max_int -> 0 < b -> Int.div a b = a / b.
Proof.
  intros Ha Hb. unfold Int.div. rewrite Z.quot_div_nonneg by lia.
  apply wrap_id. unfold Int.in_range, Int.min_int, Int.max_int in *.
  assert (0 <= a / b) by (apply Z.div_pos; lia).
  assert (a / b <= a) by (apply Z.div_le_upper_bound; nia).
  lia.
Qed.

Lemma int_rem_nonneg (a b : Z) :
  0 <= a <= Int.max_int -> 0 < b -> Int.sub a (Int.mul (a / b) b) = a mod b.
Proof.
  intros Ha Hb. unfold Int.sub, Int.mul.
  pose proof (Z.div_mod a b ltac:(lia)) as E.
  pose proof (Z.mod_pos_bound a b Hb) as B.
  assert (0 <= a / b) by (apply Z.div_pos; lia).
  unfold Int.max_int in *.
  rewrite (wrap_id (a / b * b)) by (unfold Int.in_range, Int.min_int, Int.max_int; nia).
  rewrite wrap_id by (unfold Int.in_range, Int.min_int, Int.max_int; nia).
  nia.
Qed.

Lemma msToVttTimeString_fields (ms : Z) :
  0 <= ms <= Int.max_int -> msToVttTimeString ms = format_fields ms.
Proof.
  intros Hms. unfold msToVttTimeString, format_fields. cbv zeta.
  rewrite (int_div_nonneg ms 3600000) by lia.
  rewrite (int_rem_nonneg ms 3600000) by lia.
  pose proof (Z.mod_pos_bound ms 3600000 ltac:(lia)) as B1.
  assert (R1 : 0 <= ms mod 3600000 <= Int.max_int) by (unfold Int.max_int; lia).
  rewrite (int_div_nonneg _ 60000 R1) by lia.
  rewrite (int_rem_nonneg _ 60000 R1) by lia.
  replace ((ms mod 3600000) mod 60000) with (ms mod 60000)
    by (symmetry; apply Z.mod_mod_divide; exists 60; reflexivity).
  pose proof (Z.mod_pos_bound ms 60000 ltac:(lia)) as B2.
  assert (R2 : 0 <= ms mod 60000 <= Int.max_int) by (unfold Int.max_int; lia).
  rewrite (int_div_nonneg _ 1000 R2) by lia.
  rewrite (int_rem_nonneg _ 1000 R2) by lia.
  replace ((ms mod 60000) mod 1000) with (ms mod 1000)
    by (symmetry; apply Z.mod_mod_divide; exists 60; reflexivity).
  pose proof (Z.mod_pos_bound ms 1000 ltac:(lia)) as B3.
  rewrite !app_assoc.
  rewrite (pad2_code_spec (ms / 3600000)) by (apply Z.div_pos; lia).
  rewrite <- !app_assoc.
  f_equal. f_equal.
  rewrite !app_assoc.
  rewrite (pad2_code_spec (ms mod 3600000 / 60000)) by (apply Z.div_pos; lia).
  rewrite <- !app_assoc. f_equal. f_equal.
  rewrite !app_assoc.
  rewrite (pad2_code_spec (ms mod 60000 / 1000)) by (apply Z.div_pos; lia).
  rewrite <- !app_assoc. f_equal. f_equal.
  apply pad3_code_spec. lia.
Qed.

Lemma zero_pad_length (w : nat) (s : wstring) :
  List.length (zero_pad w s) = Nat.max w (List.length s).
Proof.
  unfold zero_pad. rewrite length_app, repeat_length.
  destruct (Nat.max_spec w (List.length s)) as [[? ->]|[? ->]]; lia.
Qed.

Lemma to_wstring_length_lt100 (n : Z) :
  0 <= n < 100 -> (List.length (to_wstring n) <= 2)%nat.
Proof.
  intros H. destruct (Z.lt_ge_cases n 10).
  - rewrite to_wstring_1 by lia. simpl. lia.
  - rewrite to_wstring_2 by lia. simpl. lia.
Qed.

Lemma to_wstring_length_lt1000 (n : Z) :
  0 <= n < 1000 -> (List.length (to_wstring n) <= 3)%nat.
Proof.
  intros H. destruct (Z.lt_ge_cases n 100).
  - pose proof (to_wstring_length_lt100 n). lia.
  - rewrite to_wstring_3 by lia. simpl. lia.
Qed.

Lemma digits_val_zero_pad (w : nat) (s : wstring) :
  digits_val 0 (zero_pad w s) = digits_val 0 s.
Proof.
  unfold zero_pad. induction (w - List.length s)%nat as [|k IH]; [reflexivity|].
  cbn [repeat app digits_val]. exact IH.
Qed.

Lemma time_fields_bounds (ms : Z) :
  0 <= ms ->
  0 <= ms / 3600000
  /\ 0 <= ms mod 3600000 / 60000 < 60
  /\ 0 <= ms mod 60000 / 1000 < 60
  /\ 0 <= ms mod 1000 < 1000.
Proof.
  intros Hms.
  pose proof (Z.mod_pos_bound ms 3600000 ltac:(lia)).
  pose proof (Z.mod_pos_bound ms 60000 ltac:(lia)).
  pose proof (Z.mod_pos_bound ms 1000 ltac:(lia)).
  split; [apply Z.div_pos; lia|].
  split; [split; [apply Z.div_pos; lia | apply Z.div_lt_upper_bound; lia]|].
  split; [split; [apply Z.div_pos; lia | apply Z.div_lt_upper_bound; lia]|].
  assumption.
Qed.

Lemma zero_pad_2_width (n : Z) :
  0 <= n < 100 -> List.length (zero_pad 2 (to_wstring n)) = 2%nat.
Proof.
  intros H. rewrite zero_pad_length.
  pose proof (to_wstring_length_lt100 n H). lia.
Qed.

Lemma zero_pad_3_width (n : Z) :
  0 <= n < 1000 -> List.length (zero_pad 3 (to_wstring n)) = 3%nat.
Proof.
  intros H. rewrite zero_pad_length.
  pose proof (to_wstring_length_lt1000 n H). lia.
Qed.

(** C6. For a non-negative [ms], [msToVttTimeString] splits it with quotient
    and remainder by 3600000, 60000 and 1000 and writes the four fields
    zero-padded to widths 2, 2, 2 and 3, joined by [:], [:] and [.].  The
    minute, second and millisecond fields have exactly their width; the hour
    field has width 2 up to 99 hours and beyond that is the whole number,
    wider than 2, nothing being cut off. *)
Theorem msToVttTimeString_format (ms : Z) :
  0 <= ms <= Int.max_int ->
  let h := ms / 3600000 in
  let m := ms mod 3600000 / 60000 in
  let s := ms mod 60000 / 1000 in
  let r := ms mod 1000 in
  msToVttTimeString ms
  = zero_pad 2 (to_wstring h) ++ L ":" ++ zero_pad 2 (to_wstring m)
      ++ L ":" ++ zero_pad 2 (to_wstring s) ++ L "." ++ zero_pad 3 (to_wstring r)
  /\ ms = h * 3600000 + m * 60000 + s * 1000 + r
  /\ (0 <= h /\ 0 <= m < 60 /\ 0 <= s < 60 /\ 0 <= r < 1000)
  /\ List.length (zero_pad 2 (to_wstring m)) = 2%nat
  /\ List.length (zero_pad 2 (to_wstring s)) = 2%nat
  /\ List.length (zero_pad 3 (to_wstring r)) = 3%nat
  /\ (h <= 99 -> List.length (zero_pad 2 (to_wstring h)) = 2%nat)
  /\ (99 < h ->
      zero_pad 2 (to_wstring h) = to_wstring h
      /\ (2 < List.length (to_wstring h))%nat)
  /\ digits_val 0 (zero_pad 2 (to_wstring h)) = h.
Proof.
  intros Hms h m s r.
  destruct (time_fields_bounds ms ltac:(lia)) as (Hh & Hm & Hs & Hr).
  fold h m s r in Hh, Hm, Hs, Hr.
  split; [exact (msToVttTimeString_fields ms Hms)|].
  split.
  { subst h m s r.
    pose proof (Z.div_mod ms 3600000 ltac:(lia)) as E1.
    pose proof (Z.div_mod (ms mod 3600000) 60000 ltac:(lia)) as E2.
    pose proof (Z.div_mod (ms mod 60000) 1000 ltac:(lia)) as E3.
    rewrite (Z.mod_mod_divide ms 3600000 60000) in E2 by (exists 60; reflexivity).
    rewrite (Z.mod_mod_divide ms 60000 1000) in E3 by (exists 60; reflexivity).
    lia. }
  split; [tauto|].
  split; [apply zero_pad_2_width; lia|].
  split; [apply zero_pad_2_width; lia|].
  split; [apply zero_pad_3_width; lia|].
  split; [intros Hle; apply zero_pad_2_width; lia|].
  split.
  - intros Hgt. pose proof (to_wstring_length_ge3 h ltac:(lia)) as HL.
    split; [|lia]. unfold zero_pad.
    replace (2 - List.length (to_wstring h))%nat with 0%nat by lia. reflexivity.
  - rewrite digits_val_zero_pad. apply to_wstring_val. exact Hh.
Qed.

Lemma msToVttTimeString_format_witness :
  0 <= 360000000 <= Int.max_int
  /\ msToVttTimeString 360000000 = L "100:00:00.000".
Proof.
  assert (H : 0 <= 360000000 <= Int.max_int) by (unfold Int.max_int; lia).
  split; [exact H | exact (proj1 (msToVttTimeString_format 360000000 H))].
Defined.

(** ** Parsing a time *)

Ltac zdm := Z.div_mod_to_equations; lia.

Lemma stoi_digits (s : wstring) :
  s <> [] -> Forall (fun c => is_digit c = true) s ->
  Int.in_range (digits_val 0 s) -> stoi s = inr (digits_val 0 s).
Proof.
  intros Hne Hall Hr. destruct s as [|c r]; [congruence|].
  inversion Hall as [|? ? Hc _]; subst.
  pose proof (proj1 (is_digit_iff c) Hc) as Hc'.
  unfold stoi. cbn [skip_space].
  replace (iswspace c) with false
    by (symmetry; unfold iswspace; apply orb_false_intro;
        [apply Z.eqb_neq; lia | apply andb_false_intro2; apply Z.leb_gt; lia]).
  replace (c =? 45) with false by (symmetry; apply Z.eqb_neq; lia).
  replace (c =? 43) with false by (symmetry; apply Z.eqb_neq; lia).
  cbn [orb starts_with_digit]. rewrite Hc.
  rewrite (in_rangeb_true _ Hr). reflexivity.
Qed.

Lemma digits_val_2 (a b : Z) :
  is_digit a = true -> is_digit b = true ->
  digits_val 0 [a; b] = 10 * (a - 48) + (b - 48).
Proof.
  intros Ha Hb. cbn [digits_val]. rewrite Ha, Hb. lia.
Qed.

Lemma digits_val_3 (a b c : Z) :
  is_digit a = true -> is_digit b = true -> is_digit c = true ->
  digits_val 0 [a; b; c] = 100 * (a - 48) + 10 * (b - 48) + (c - 48).
Proof.
  intros Ha Hb Hc. cbn [digits_val]. rewrite Ha, Hb, Hc. lia.
Qed.

Lemma stoi_2 (a b : Z) :
  is_digit a = true -> is_digit b = true ->
  stoi [a; b] = inr (10 * (a - 48) + (b - 48)).
Proof.
  intros Ha Hb. rewrite <- digits_val_2 by assumption.
  apply stoi_digits; [discriminate | repeat constructor; assumption |].
  rewrite digits_val_2 by assumption.
  apply is_digit_iff in Ha, Hb.
  unfold Int.in_range, Int.min_int, Int.max_int. lia.
Qed.

Lemma stoi_3 (a b c : Z) :
  is_digit a = true -> is_digit b = true -> is_digit c = true ->
  stoi [a; b; c] = inr (100 * (a - 48) + 10 * (b - 48) + (c - 48)).
Proof.
  intros Ha Hb Hc. rewrite <- digits_val_3 by assumption.
  apply stoi_digits; [discriminate | repeat constructor; assumption |].
  rewrite digits_val_3 by assumption.
  apply is_digit_iff in Ha, Hb, Hc.
  unfold Int.in_range, Int.min_int, Int.max_int. lia.
Qed.

Lemma match_atoms_nil (s : wstring) : match_atoms [] s = true -> s = [].
Proof. destruct s; [reflexivity | discriminate]. Qed.

Lemma match_atoms_cons (a : atom) (p : list atom) (s : wstring) :
  match_atoms (a :: p) s = true ->
  exists c s', s = c :: s' /\ atom_match a c = true /\ match_atoms p s' = true.
Proof.
  destruct s as [|c s']; [discriminate|]. cbn [match_atoms].
  intros H. apply andb_prop in H. destruct H. eauto.
Qed.

Lemma timeAtoms_eq :
  timeAtoms = [Digit; Digit; Chr 58; Digit; Digit; Chr 58; Digit; Digit;
               Chr 44; Digit; Digit; Digit].
Proof. reflexivity. Qed.

Ltac invert_match H :=
  repeat (let c := fresh "c" in
          let E := fresh "E" in
          let M := fresh "M" in
          apply match_atoms_cons in H;
          destruct H as (c & ? & -> & M & H);
          cbn [atom_match] in M;
          try (apply Z.eqb_eq in M; subst c));
  apply match_atoms_nil in H; subst.

(** The strings that [\d\d:\d\d:\d\d,\d{3}] matches. *)
Lemma timeAtoms_shape (t : wstring) :
  match_atoms timeAtoms t = true <->
  exists a b c d e f g h i,
    t = [a; b; 58; c; d; 58; e; f; 44; g; h; i]
    /\ Forall (fun x => is_digit x = true) [a; b; c; d; e; f; g; h; i].
Proof.
  rewrite timeAtoms_eq. split.
  - intros H. invert_match H.
    do 9 eexists. split; [reflexivity|].
    repeat constructor; assumption.
  - intros (a & b & c & d & e & f & g & h & i & -> & Hall).
    repeat match goal with
           | H : Forall _ (_ :: _) |- _ => inversion H; clear H; subst
           end.
    cbn [match_atoms atom_match].
    repeat match goal with E : is_digit _ = true |- _ => rewrite E; clear E end.
    reflexivity.
Qed.

Section TimeString.

Variables a b c d e f g h i : Z.
Hypothesis digits : Forall (fun x => is_digit x = true) [a; b; c; d; e; f; g; h; i].

Lemma time_digits_bounds :
  (48 <= a <= 57 /\ 48 <= b <= 57 /\ 48 <= c <= 57)
  /\ (48 <= d <= 57 /\ 48 <= e <= 57 /\ 48 <= f <= 57)
  /\ (48 <= g <= 57 /\ 48 <= h <= 57 /\ 48 <= i <= 57).
Proof.
  repeat match goal with
         | H : Forall _ (_ :: _) |- _ => inversion H; clear H; subst
         end.
  repeat match goal with
         | H : is_digit _ = true |- _ => apply is_digit_iff in H
         end.
  tauto.
Qed.

Lemma timeStringToMs_digits :
  timeStringToMs [a; b; 58; c; d; 58; e; f; 44; g; h; i]
  = inr ((10 * (a - 48) + (b - 48)) * 3600000
         + (10 * (c - 48) + (d - 48)) * 60000
         + (10 * (e - 48) + (f - 48)) * 1000
         + (100 * (g - 48) + 10 * (h - 48) + (i - 48))).
Proof.
  pose proof time_digits_bounds as B.
  pose proof digits as D.
  repeat match goal with
         | H : Forall _ (_ :: _) |- _ => inversion H; clear H; subst
         end.
  unfold timeStringToMs, substr, substr_from.
  cbn [List.length Nat.ltb Nat.leb firstn skipn bind ret].
  rewrite !stoi_2, stoi_3 by assumption.
  cbn [bind]. unfold ret, Int.add, Int.mul.
  assert (R : forall z, 0 <= z <= 400000000 -> Int.wrap z = z).
  { intros z Hz. apply wrap_id.
    unfold Int.in_range, Int.min_int, Int.max_int. lia. }
  repeat match goal with
         | |- context [Int.wrap ?z] => rewrite (R z) by lia
         end.
  reflexivity.
Qed.

Lemma zero_pad_2_digits :
  zero_pad 2 (to_wstring (10 * (a - 48) + (b - 48))) = [a; b].
Proof.
  pose proof time_digits_bounds as B.
  destruct (Z.eq_dec a 48) as [->|Hne].
  - rewrite to_wstring_1 by lia. unfold zero_pad. cbn [List.length Nat.sub repeat app].
    do 2 f_equal. lia.
  - rewrite to_wstring_2 by lia. unfold zero_pad. cbn [List.length Nat.sub repeat app].
    f_equal; [|f_equal]; zdm.
Qed.

Lemma zero_pad_3_digits :
  zero_pad 3 (to_wstring (100 * (g - 48) + 10 * (h - 48) + (i - 48))) = [g; h; i].
Proof.
  pose proof time_digits_bounds as B.
  destruct (Z.eq_dec g 48) as [->|Hg].
  - destruct (Z.eq_dec h 48) as [->|Hh].
    + rewrite to_wstring_1 by lia. unfold zero_pad.
      cbn [List.length Nat.sub repeat app]. do 3 f_equal. lia.
    + rewrite to_wstring_2 by lia. unfold zero_pad.
      cbn [List.length Nat.sub repeat app].
      f_equal; f_equal; [|f_equal]; zdm.
  - rewrite to_wstring_3 by lia. unfold zero_pad.
    cbn [List.length Nat.sub repeat app].
    f_equal; [|f_equal; [|f_equal]]; zdm.
Qed.

End TimeString.

Lemma format_fields_digits (a b c d e f g h i : Z) :
  Forall (fun x => is_digit x = true) [a; b; c; d; e; f; g; h; i] ->
  10 * (c - 48) + (d - 48) < 60 ->
  10 * (e - 48) + (f - 48) < 60 ->
  format_fields ((10 * (a - 48) + (b - 48)) * 3600000
                 + (10 * (c - 48) + (d - 48)) * 60000
                 + (10 * (e - 48) + (f - 48)) * 1000
                 + (100 * (g - 48) + 10 * (h - 48) + (i - 48)))
  = [a; b; 58; c; d; 58; e; f; 46; g; h; i].
Proof.
  intros D Hm Hs.
  pose proof (time_digits_bounds a b c d e f g h i D) as B.
  assert (Dm : Forall (fun x => is_digit x = true) [c; d; a; b; e; f; g; h; i]).
  { repeat match goal with
           | H : Forall _ (_ :: _) |- _ => inversion H; clear H; subst
           end.
    repeat constructor; assumption. }
  assert (Ds : Forall (fun x => is_digit x = true) [e; f; c; d; a; b; g; h; i]).
  { repeat match goal with
           | H : Forall _ (_ :: _) |- _ => inversion H; clear H; subst
           end.
    repeat constructor; assumption. }
  unfold format_fields.
  match goal with |- context [?ms / 3600000] =>
    replace (ms / 3600000) with (10 * (a - 48) + (b - 48)) by zdm;
    replace (ms mod 3600000 / 60000) with (10 * (c - 48) + (d - 48)) by zdm;
    replace (ms mod 60000 / 1000) with (10 * (e - 48) + (f - 48)) by zdm;
    replace (ms mod 1000) with (100 * (g - 48) + 10 * (h - 48) + (i - 48)) by zdm
  end.
  rewrite (zero_pad_2_digits a b c d e f g h i D).
  rewrite (zero_pad_2_digits c d a b e f g h i Dm).
  rewrite (zero_pad_2_digits e f c d a b g h i Ds).
  rewrite (zero_pad_3_digits a b c d e f g h i D).
  reflexivity.
Qed.

Lemma comma_to_period_digits (a b c d e f g h i : Z) :
  Forall (fun x => is_digit x = true) [a; b; c; d; e; f; g; h; i] ->
  comma_to_period [a; b; 58; c; d; 58; e; f; 44; g; h; i]
  = [a; b; 58; c; d; 58; e; f; 46; g; h; i].
Proof.
  intros D. pose proof (time_digits_bounds a b c d e f g h i D) as B.
  unfold comma_to_period. cbn [map].
  repeat match goal with
         | |- context [?x =? 44] =>
             is_var x; replace (x =? 44) with false by (symmetry; apply Z.eqb_neq; lia)
         end.
  reflexivity.
Qed.

Lemma roundtrip_below_60 (t : wstring) :
  match_atoms timeAtoms t = true ->
  minutes_field t < 60 ->
  seconds_field t < 60 ->
  exists ms,
    timeStringToMs t = inr ms
    /\ 0 <= ms < 100 * 3600000
    /\ msToVttTimeString ms = comma_to_period t.
Proof.
  intros Hm Hmin Hsec.
  apply timeAtoms_shape in Hm.
  destruct Hm as (a & b & c & d & e & f & g & h & i & -> & D).
  pose proof (time_digits_bounds a b c d e f g h i D) as B.
  assert (Dc : is_digit c = true /\ is_digit d = true
               /\ is_digit e = true /\ is_digit f = true).
  { rewrite !is_digit_iff. lia. }
  destruct Dc as (Dc & Dd & De & Df).
  unfold minutes_field, field in Hmin. cbn [skipn firstn] in Hmin.
  rewrite digits_val_2 in Hmin by assumption.
  unfold seconds_field, field in Hsec. cbn [skipn firstn] in Hsec.
  rewrite digits_val_2 in Hsec by assumption.
  eexists. split; [apply timeStringToMs_digits; exact D|].
  split; [lia|].
  rewrite msToVttTimeString_fields by (unfold Int.max_int; lia).
  rewrite format_fields_digits by assumption.
  symmetry. apply comma_to_period_digits. exact D.
Qed.

(** C1, as amended.  A string of the form [HH:MM:SS,mmm] whose minute and
    second fields are below 60 is parsed by [timeStringToMs] without an
    exception, to a time below 100 hours, and [msToVttTimeString] writes that
    time with the same digits, the comma replaced by a period. *)
Theorem timeString_roundtrip (t : wstring) :
  match_atoms timeAtoms t = true ->
  minutes_field t < 60 ->
  seconds_field t < 60 ->
  exists ms,
    timeStringToMs t = inr ms
    /\ 0 <= ms < 100 * 3600000
    /\ msToVttTimeString ms = comma_to_period t.
Proof. exact (roundtrip_below_60 t). Qed.

Lemma timeString_roundtrip_witness :
  exists ms,
    timeStringToMs (L "12:34:56,789") = inr ms
    /\ 0 <= ms < 100 * 3600000
    /\ msToVttTimeString ms = comma_to_period (L "12:34:56,789").
Proof.
  apply (timeString_roundtrip (L "12:34:56,789")).
  - reflexivity.
  - vm_compute. reflexivity.
  - vm_compute. reflexivity.
Defined.

(** C1, as stated, fails: [00:60:00,000] has the form [HH:MM:SS,mmm] and
    encodes one hour, well below 100 hours, but it is written back as
    [01:00:00.000], not as [00:60:00.000]. *)
Lemma timeString_roundtrip_fails_minute_60 :
  match_atoms timeAtoms (L "00:60:00,000") = true
  /\ timeStringToMs (L "00:60:00,000") = inr 3600000
  /\ 3600000 < 100 * 3600000
  /\ msToVttTimeString 3600000 = L "01:00:00.000"
  /\ msToVttTimeString 3600000 <> comma_to_period (L "00:60:00,000").
Proof.
  split; [reflexivity|]. split; [reflexivity|]. split; [lia|].
  split; [reflexivity|]. vm_compute. discriminate.
Qed.

(** ** Time frame lines *)

Lemma match_atoms_length (p : list atom) : forall s : wstring,
  match_atoms p s = true -> List.length s = List.length p.
Proof.
  induction p as [|a p IH]; intros [|c s] H; try discriminate; [reflexivity|].
  cbn [match_atoms] in H. apply andb_prop in H. destruct H as [_ H].
  cbn [List.length]. f_equal. apply IH. exact H.
Qed.

Lemma match_atoms_app (p q : list atom) : forall s : wstring,
  match_atoms (p ++ q) s = true <->
  exists s1 s2,
    s = s1 ++ s2 /\ match_atoms p s1 = true /\ match_atoms q s2 = true.
Proof.
  induction p as [|a p IH]; intros s.
  - cbn [app]. split.
    + intros H. exists [], s. split; [reflexivity | split; [reflexivity | assumption]].
    + intros (s1 & s2 & -> & H1 & H2).
      apply match_atoms_nil in H1. subst s1. exact H2.
  - cbn [app]. split.
    + intros H. destruct s as [|c s]; [discriminate|].
      cbn [match_atoms] in H. apply andb_prop in H. destruct H as [Hc H].
      apply IH in H. destruct H as (s1 & s2 & -> & H1 & H2).
      exists (c :: s1), s2.
      split; [reflexivity | split; [|assumption]].
      cbn [match_atoms]. rewrite Hc, H1. reflexivity.
    + intros (s1 & s2 & -> & H1 & H2).
      destruct s1 as [|c s1]; [discriminate|].
      cbn [match_atoms] in H1. apply andb_prop in H1. destruct H1 as [Hc H1].
      cbn [app match_atoms]. rewrite Hc. cbn [andb].
      apply IH. exists s1, s2. split; [reflexivity | split; assumption].
Qed.

Lemma match_lit (str : string) : forall s : wstring,
  match_atoms (lit str) s = true <-> s = L str.
Proof.
  unfold lit. induction (L str) as [|x l IH]; intros s; cbn [map].
  - split; [apply match_atoms_nil | intros ->; reflexivity].
  - split.
    + intros H. destruct s as [|c s]; [discriminate|].
      cbn [match_atoms atom_match] in H. apply andb_prop in H.
      destruct H as [Hc H]. apply Z.eqb_eq in Hc. apply IH in H. congruence.
    + intros ->. cbn [match_atoms atom_match]. rewrite Z.eqb_refl.
      apply IH. reflexivity.
Qed.

(** The lines that the time frame pattern matches, and its two groups. *)
Lemma rgxTimeFrame_shape (sLine : wstring) :
  match_atoms rgxTimeFrameAtoms sLine = true <->
  exists t1 t2,
    sLine = t1 ++ L " --> " ++ t2
    /\ match_atoms timeAtoms t1 = true /\ match_atoms timeAtoms t2 = true.
Proof.
  unfold rgxTimeFrameAtoms. rewrite match_atoms_app. split.
  - intros (t1 & r & -> & H1 & Hr).
    apply match_atoms_app in Hr. destruct Hr as (sep & t2 & -> & Hs & H2).
    apply match_lit in Hs. subst sep. exists t1, t2. auto.
  - intros (t1 & t2 & -> & H1 & H2).
    exists t1, (L " --> " ++ t2).
    split; [reflexivity | split; [assumption|]].
    apply match_atoms_app. exists (L " --> "), t2.
    split; [reflexivity | split; [apply match_lit; reflexivity | assumption]].
Qed.

Lemma rgxTimeFrame_groups (t1 t2 : wstring) :
  match_atoms timeAtoms t1 = true -> match_atoms timeAtoms t2 = true ->
  rgxTimeFrame (t1 ++ L " --> " ++ t2) = Some (t1, t2).
Proof.
  intros H1 H2. unfold rgxTimeFrame.
  replace (match_atoms rgxTimeFrameAtoms (t1 ++ L " --> " ++ t2)) with true
    by (symmetry; apply rgxTimeFrame_shape; eauto).
  pose proof (match_atoms_length _ _ H1) as L1.
  pose proof (match_atoms_length _ _ H2) as L2.
  f_equal. f_equal.
  - rewrite <- L1. rewrite firstn_app, Nat.sub_diag, firstn_all. cbn [firstn].
    apply app_nil_r.
  - rewrite <- L1 at 2.
    replace (List.length (lit " --> ")) with (List.length (L " --> ")) by reflexivity.
    rewrite app_assoc, <- length_app, skipn_app, Nat.sub_diag, skipn_all.
    cbn [skipn app]. rewrite <- L2. apply firstn_all.
Qed.

Lemma rgxTimeFrame_none (sLine : wstring) :
  match_atoms rgxTimeFrameAtoms sLine = false -> rgxTimeFrame sLine = None.
Proof. intros H. unfold rgxTimeFrame. rewrite H. reflexivity. Qed.

(** A time never is a dialog number: its third character is a colon. *)
Lemma time_prefix_not_number (t rest : wstring) :
  match_atoms timeAtoms t = true -> rgxDialogNumber (t ++ rest) = false.
Proof.
  intros H. apply timeAtoms_shape in H.
  destruct H as (a & b & c & d & e & f & g & h & i & -> & _).
  unfold rgxDialogNumber, match_plus. cbn [app forallb atom_match].
  change (is_digit 58) with false. rewrite !andb_false_r. reflexivity.
Qed.

Lemma timeStringToMs_total (t : wstring) :
  match_atoms timeAtoms t = true ->
  exists ms, timeStringToMs t = inr ms /\ 0 <= ms <= 362439999.
Proof.
  intros H. apply timeAtoms_shape in H.
  destruct H as (a & b & c & d & e & f & g & h & i & -> & D).
  pose proof (time_digits_bounds a b c d e f g h i D) as B.
  eexists. split; [apply timeStringToMs_digits; exact D | lia].
Qed.

Lemma rgxTimeFrame_some (sLine t1 t2 : wstring) :
  rgxTimeFrame sLine = Some (t1, t2) ->
  sLine = t1 ++ L " --> " ++ t2
  /\ match_atoms timeAtoms t1 = true /\ match_atoms timeAtoms t2 = true.
Proof.
  intros H.
  assert (M : match_atoms rgxTimeFrameAtoms sLine = true).
  { unfold rgxTimeFrame in H.
    destruct (match_atoms rgxTimeFrameAtoms sLine); [reflexivity | discriminate]. }
  apply rgxTimeFrame_shape in M. destruct M as (u1 & u2 & -> & M1 & M2).
  rewrite (rgxTimeFrame_groups u1 u2 M1 M2) in H.
  injection H as <- <-. auto.
Qed.

Lemma clamp_code_spec (x : Z) : (if x <? 0 then 0 else x) = clamp0 x.
Proof. unfold clamp0. destruct (Z.ltb_spec x 0); lia. Qed.

Lemma offsetTimeFrame_in_range (off : Z) (t1 t2 : wstring) (s e : Z) :
  timeStringToMs t1 = inr s -> timeStringToMs t2 = inr e ->
  Int.in_range (s + off) -> Int.in_range (e + off) ->
  offsetTimeFrame off t1 t2
  = inr (msToVttTimeString (clamp0 (s + off)) ++ L " --> "
           ++ msToVttTimeString (clamp0 (e + off))).
Proof.
  intros Hs He Rs Re. unfold offsetTimeFrame. rewrite Hs, He. cbn [bind].
  unfold Int.add. rewrite !wrap_id by assumption.
  rewrite !clamp_code_spec. reflexivity.
Qed.

(** C2. With a non-zero offset, a time frame line becomes the two times
    [start + offset] and [end + offset], each floored at zero on its own,
    whenever the two sums fit an [int].  So [00:00:00,500] moved by -1000 ms
    becomes [00:00:00.000] while the end of the same line is only shifted;
    and when only the end falls below zero the line is written with its
    start after its end. *)
Theorem offset_clamps_each_endpoint :
  (forall (c : Converter) (sLine : wstring),
      _timeOffsetMs c <> 0 ->
      match_atoms rgxTimeFrameAtoms sLine = true ->
      exists t1 t2 s e,
        sLine = t1 ++ L " --> " ++ t2
        /\ timeStringToMs t1 = inr s /\ timeStringToMs t2 = inr e
        /\ (Int.in_range (s + _timeOffsetMs c) ->
            Int.in_range (e + _timeOffsetMs c) ->
            convertLine c sLine
            = inr (Some (msToVttTimeString (clamp0 (s + _timeOffsetMs c))
                           ++ L " --> "
                           ++ msToVttTimeString (clamp0 (e + _timeOffsetMs c))))))
  /\ convertLine (Converter_new (-1000) EmptyString true)
       (L "00:00:00,500 --> 00:00:02,000")
     = inr (Some (L "00:00:00.000 --> 00:00:01.000"))
  /\ convertLine (Converter_new (-1000) EmptyString true)
       (L "00:00:02,000 --> 00:00:00,500")
     = inr (Some (L "00:00:01.000 --> 00:00:00.000")).
Proof.
  split; [|split; reflexivity].
  intros c sLine Hoff M.
  apply rgxTimeFrame_shape in M. destruct M as (t1 & t2 & -> & M1 & M2).
  destruct (timeStringToMs_total t1 M1) as (s & Hs & Bs).
  destruct (timeStringToMs_total t2 M2) as (e & He & Be).
  exists t1, t2, s, e. repeat split; try assumption.
  intros Rs Re. unfold convertLine.
  rewrite (time_prefix_not_number t1 _ M1).
  rewrite (rgxTimeFrame_groups t1 t2 M1 M2).
  replace (_timeOffsetMs c =? 0) with false by (symmetry; apply Z.eqb_neq; exact Hoff).
  cbn [negb]. rewrite (offsetTimeFrame_in_range _ _ _ s e) by assumption.
  reflexivity.
Qed.

Lemma offset_clamps_each_endpoint_witness :
  exists t1 t2 s e,
    L "00:00:00,500 --> 00:00:02,000" = t1 ++ L " --> " ++ t2
    /\ timeStringToMs t1 = inr s /\ timeStringToMs t2 = inr e
    /\ (Int.in_range (s + -1000) ->
        Int.in_range (e + -1000) ->
        convertLine (Converter_new (-1000) EmptyString true)
          (L "00:00:00,500 --> 00:00:02,000")
        = inr (Some (msToVttTimeString (clamp0 (s + -1000))
                       ++ L " --> "
                       ++ msToVttTimeString (clamp0 (e + -1000))))).
Proof.
  apply (proj1 offset_clamps_each_endpoint
           (Converter_new (-1000) EmptyString true)
           (L "00:00:00,500 --> 00:00:02,000")).
  - vm_compute. discriminate.
  - reflexivity.
Defined.

(** ** The zero-offset branch *)

Lemma wstr_replace_go_comma (s : wstring) :
  wstr_replace_go 0 s [44] [46] = comma_to_period s.
Proof.
  unfold comma_to_period.
  induction s as [|c s IH]; [reflexivity|].
  cbn [wstr_replace_go map is_prefix List.length Nat.sub].
  rewrite (Z.eqb_sym 44 c), andb_true_r.
  destruct (c =? 44); cbn [app]; rewrite IH; reflexivity.
Qed.

Lemma replaceCommas_spec (s : wstring) : replaceCommas s = comma_to_period s.
Proof. exact (wstr_replace_go_comma s). Qed.

(** C3, as amended.  On a time frame line both of whose times have minute
    and second fields below 60, the zero-offset branch (commas replaced by
    periods) writes what the offset branch would write for offset 0. *)
Theorem zero_offset_branch_agrees (c : Converter) (sLine t1 t2 : wstring) :
  _timeOffsetMs c = 0 ->
  rgxTimeFrame sLine = Some (t1, t2) ->
  minutes_field t1 < 60 -> seconds_field t1 < 60 ->
  minutes_field t2 < 60 -> seconds_field t2 < 60 ->
  convertLine c sLine = inr (Some (replaceCommas sLine))
  /\ offsetTimeFrame 0 t1 t2 = inr (replaceCommas sLine).
Proof.
  intros Hoff Hm Hm1 Hs1 Hm2 Hs2.
  destruct (rgxTimeFrame_some _ _ _ Hm) as (-> & M1 & M2).
  split.
  - unfold convertLine. rewrite (time_prefix_not_number t1 _ M1), Hm, Hoff.
    reflexivity.
  - destruct (roundtrip_below_60 t1 M1 Hm1 Hs1) as (s & Ps & Bs & Fs).
    destruct (roundtrip_below_60 t2 M2 Hm2 Hs2) as (e & Pe & Be & Fe).
    rewrite (offsetTimeFrame_in_range 0 t1 t2 s e Ps Pe)
      by (unfold Int.in_range, Int.min_int, Int.max_int; lia).
    rewrite !Z.add_0_r. unfold clamp0. rewrite !Z.max_r by lia.
    rewrite Fs, Fe, replaceCommas_spec. unfold comma_to_period.
    rewrite !map_app. reflexivity.
Qed.

Lemma zero_offset_branch_agrees_witness :
  convertLine (Converter_new 0 EmptyString true) (L "00:00:01,000 --> 00:00:02,500")
  = inr (Some (replaceCommas (L "00:00:01,000 --> 00:00:02,500")))
  /\ offsetTimeFrame 0 (L "00:00:01,000") (L "00:00:02,500")
     = inr (replaceCommas (L "00:00:01,000 --> 00:00:02,500")).
Proof.
  apply (zero_offset_branch_agrees (Converter_new 0 EmptyString true)
           (L "00:00:01,000 --> 00:00:02,500")
           (L "00:00:01,000") (L "00:00:02,500")).
  - reflexivity.
  - reflexivity.
  - vm_compute. reflexivity.
  - vm_compute. reflexivity.
  - vm_compute. reflexivity.
  - vm_compute. reflexivity.
Defined.

(** C3, as stated, fails: the line [00:60:00,000 --> 00:60:01,000] matches
    the time frame pattern; the zero-offset branch keeps its digits, while the
    offset branch evaluated with offset 0 carries the 60 minutes into the
    hours. *)
Lemma zero_offset_branch_differs_minute_60 :
  rgxTimeFrame (L "00:60:00,000 --> 00:60:01,000")
  = Some (L "00:60:00,000", L "00:60:01,000")
  /\ convertLine (Converter_new 0 EmptyString true) (L "00:60:00,000 --> 00:60:01,000")
     = inr (Some (L "00:60:00.000 --> 00:60:01.000"))
  /\ offsetTimeFrame 0 (L "00:60:00,000") (L "00:60:01,000")
     = inr (L "01:00:00.000 --> 01:00:01.000")
  /\ L "00:60:00.000 --> 00:60:01.000" <> L "01:00:00.000 --> 01:00:01.000".
Proof.
  split; [reflexivity|]. split; [reflexivity|]. split; [reflexivity|].
  vm_compute. discriminate.
Qed.

(** ** HTML encoding *)

Lemma unsigned_int_latin1 (c : Z) :
  in_latin1_supplement c = true -> unsigned_int c = c.
Proof.
  unfold in_latin1_supplement, unsigned_int. intros H.
  apply andb_prop in H. destruct H as [H1 H2].
  apply Z.leb_le in H1, H2. apply Z.mod_small. lia.
Qed.

(** The index loop computes the character-wise escaping, and the length of
    the string is enough fuel for it. *)
Lemma htmlEncodeLoop_spec (fuel : nat) : forall pre post : wstring,
  (List.length post <= fuel)%nat ->
  htmlEncodeLoop fuel (List.length pre) (pre ++ post) = pre ++ html_escape post.
Proof.
  induction fuel as [|fuel IH]; intros pre post Hlen.
  - destruct post; [reflexivity | cbn [List.length] in Hlen; lia].
  - cbn [htmlEncodeLoop]. destruct post as [|c post].
    + replace (nth_error (pre ++ []) (List.length pre)) with (@None Z); [reflexivity|].
      symmetry. apply nth_error_None. rewrite app_nil_r. lia.
    + rewrite nth_error_app2, Nat.sub_diag by lia. cbn [nth_error].
      cbn [List.length] in Hlen.
      unfold html_escape. cbn [flat_map]. fold (html_escape post).
      unfold escape_char. fold (in_latin1_supplement c).
      destruct (in_latin1_supplement c) eqn:Hc.
      * rewrite (unsigned_int_latin1 c Hc).
        set (replacement := L "&#" ++ to_wstring c ++ L ";").
        assert (Hr : (1 <= List.length replacement)%nat).
        { subst replacement. rewrite length_app. cbn [L List.length]. lia. }
        replace (replace1 (pre ++ c :: post) (List.length pre) replacement)
          with ((pre ++ replacement) ++ post).
        2:{ unfold replace1.
            rewrite firstn_app, Nat.sub_diag, firstn_all. cbn [firstn].
            rewrite app_nil_r.
            replace (S (List.length pre)) with (List.length (pre ++ [c]))
              by (rewrite length_app; cbn [List.length]; lia).
            replace (pre ++ c :: post) with ((pre ++ [c]) ++ post)
              by (rewrite <- app_assoc; reflexivity).
            rewrite skipn_app, Nat.sub_diag, skipn_all. cbn [skipn app].
            rewrite <- app_assoc. reflexivity. }
        replace (S (List.length pre + (List.length replacement - 1)))
          with (List.length (pre ++ replacement))
          by (rewrite length_app; lia).
        rewrite IH by lia. rewrite <- !app_assoc. reflexivity.
      * replace (S (List.length pre)) with (List.length (pre ++ [c]))
          by (rewrite length_app; cbn [List.length]; lia).
        replace (pre ++ c :: post) with ((pre ++ [c]) ++ post)
          by (rewrite <- app_assoc; reflexivity).
        rewrite IH by lia. rewrite <- !app_assoc. reflexivity.
Qed.

Lemma htmlEncodeUtf8_html_escape (s : wstring) : htmlEncodeUtf8 s = html_escape s.
Proof.
  unfold htmlEncodeUtf8.
  exact (htmlEncodeLoop_spec (List.length s) [] s (le_n _)).
Qed.

Lemma in_latin1_supplement_iff (c : Z) :
  in_latin1_supplement c = true <-> 160 <= c <= 255.
Proof.
  unfold in_latin1_supplement. rewrite andb_true_iff, !Z.leb_le. reflexivity.
Qed.

Lemma escape_char_latin1 (c : Z) :
  160 <= c <= 255 ->
  escape_char c = [38; 35; 48 + c / 100; 48 + (c / 10) mod 10; 48 + c mod 10; 59].
Proof.
  intros H. unfold escape_char.
  rewrite (proj2 (in_latin1_supplement_iff c) H).
  rewrite to_wstring_3 by lia. reflexivity.
Qed.

Lemma escape_char_other (c : Z) : ~ 160 <= c <= 255 -> escape_char c = [c].
Proof.
  intros H. unfold escape_char.
  destruct (in_latin1_supplement c) eqn:E; [|reflexivity].
  apply in_latin1_supplement_iff in E. contradiction.
Qed.

(** C5. [htmlEncodeUtf8] rewrites a line character by character: a
    character from 160 to 255 becomes [&#], its three decimal digits and
    [;]; every other character stays.  So 233 gives [&#233;], while [A]
    (65), 256 and the characters [<], [>], [&], ['] and the double quote are
    left alone. *)
Theorem htmlEncodeUtf8_escapes_latin1 :
  (forall s : wstring, htmlEncodeUtf8 s = flat_map escape_char s)
  /\ (forall c : Z,
        160 <= c <= 255 ->
        escape_char c
        = L "&#" ++ [48 + c / 100; 48 + (c / 10) mod 10; 48 + c mod 10] ++ L ";")
  /\ (forall c : Z, ~ 160 <= c <= 255 -> escape_char c = [c])
  /\ htmlEncodeUtf8 [233] = L "&#233;"
  /\ htmlEncodeUtf8 [65] = [65]
  /\ htmlEncodeUtf8 [256] = [256]
  /\ htmlEncodeUtf8 (L "<>&'" ++ [34]) = L "<>&'" ++ [34].
Proof.
  split; [exact htmlEncodeUtf8_html_escape|].
  split; [exact escape_char_latin1|].
  split; [exact escape_char_other|].
  repeat split; reflexivity.
Qed.

Lemma htmlEncodeUtf8_escapes_latin1_witness :
  160 <= 160 <= 255 /\ ~ 160 <= 159 <= 255
  /\ escape_char 160 = L "&#160;" /\ escape_char 159 = [159].
Proof.
  assert (H1 : 160 <= 160 <= 255) by lia.
  assert (H2 : ~ 160 <= 159 <= 255) by lia.
  split; [exact H1|]. split; [exact H2|]. split.
  - exact (proj1 (proj2 htmlEncodeUtf8_escapes_latin1) 160 H1).
  - exact (proj1 (proj2 (proj2 htmlEncodeUtf8_escapes_latin1)) 159 H2).
Defined.

Lemma escape_char_clean (c : Z) :
  Forall (fun x => in_latin1_supplement x = false) (escape_char c).
Proof.
  unfold escape_char. destruct (in_latin1_supplement c) eqn:E.
  - apply in_latin1_supplement_iff in E.
    apply Forall_app. split; [repeat constructor|].
    apply Forall_app. split; [|repeat constructor].
    eapply Forall_impl; [|apply to_wstring_all_digits; lia].
    intros x Hx. apply is_digit_iff in Hx. unfold in_latin1_supplement.
    apply andb_false_intro1. apply Z.leb_gt. lia.
  - repeat constructor. exact E.
Qed.

Lemma html_escape_clean (s : wstring) :
  Forall (fun x => in_latin1_supplement x = false) (html_escape s).
Proof.
  unfold html_escape. induction s as [|c s IH]; cbn [flat_map]; [constructor|].
  apply Forall_app. split; [apply escape_char_clean | exact IH].
Qed.

Lemma html_escape_fixed (s : wstring) :
  Forall (fun x => in_latin1_supplement x = false) s -> html_escape s = s.
Proof.
  unfold html_escape. induction 1 as [|c s Hc _ IH]; [reflexivity|].
  cbn [flat_map]. unfold escape_char at 1. rewrite Hc, IH. reflexivity.
Qed.

(** C10. [htmlEncodeUtf8] is idempotent.  What it inserts for a character
    from 160 to 255 consists of characters below 160, and the loop steps
    over what it inserted, so its result has no character from 160 to 255
    and a second pass changes nothing. *)
Theorem htmlEncodeUtf8_idempotent (s : wstring) :
  htmlEncodeUtf8 (htmlEncodeUtf8 s) = htmlEncodeUtf8 s
  /\ Forall (fun x => ~ 160 <= x <= 255) (htmlEncodeUtf8 s)
  /\ (forall c : Z,
        In c s -> 160 <= c <= 255 ->
        Forall (fun x => x < 160) (escape_char c)).
Proof.
  split; [|split].
  - rewrite !htmlEncodeUtf8_html_escape.
    apply html_escape_fixed, html_escape_clean.
  - rewrite htmlEncodeUtf8_html_escape.
    eapply Forall_impl; [|apply html_escape_clean].
    intros x Hx Hr. apply in_latin1_supplement_iff in Hr. congruence.
  - intros c _ Hc. rewrite escape_char_latin1 by exact Hc.
    assert (0 <= c / 100 < 10) by zdm.
    assert (0 <= (c / 10) mod 10 < 10) by zdm.
    assert (0 <= c mod 10 < 10) by zdm.
    repeat constructor; lia.
Qed.

Lemma htmlEncodeUtf8_idempotent_witness :
  In 233 [99; 97; 102; 233] /\ 160 <= 233 <= 255
  /\ Forall (fun x => x < 160) (escape_char 233).
Proof.
  assert (H1 : In 233 [99; 97; 102; 233]) by (cbn [In]; tauto).
  assert (H2 : 160 <= 233 <= 255) by lia.
  split; [exact H1|]. split; [exact H2|].
  exact (proj2 (proj2 (htmlEncodeUtf8_idempotent [99; 97; 102; 233])) 233 H1 H2).
Defined.

(** ** Line classification *)

Lemma rgxDialogNumber_iff (sLine : wstring) :
  rgxDialogNumber sLine = true <->
  sLine <> [] /\ Forall (fun x => is_digit x = true) sLine.
Proof.
  unfold rgxDialogNumber, match_plus. destruct sLine as [|c s].
  - split; [discriminate | intros [H _]; congruence].
  - change (atom_match Digit) with is_digit. rewrite forallb_forall, Forall_forall.
    split; [intros H; split; [discriminate | exact H] | intros [_ H]; exact H].
Qed.

Lemma rgxDialogNumber_non_digit (sLine : wstring) :
  Exists (fun x => is_digit x = false) sLine -> rgxDialogNumber sLine = false.
Proof.
  intros H. destruct (rgxDialogNumber sLine) eqn:E; [|reflexivity].
  apply rgxDialogNumber_iff in E. destruct E as [_ E].
  apply Exists_exists in H. destruct H as (x & Hin & Hx).
  rewrite Forall_forall in E. rewrite (E x Hin) in Hx. discriminate.
Qed.

(** On the two sub-matches of a time frame line the offset branch never
    throws. *)
Lemma offsetTimeFrame_total (off : Z) (t1 t2 : wstring) :
  match_atoms timeAtoms t1 = true -> match_atoms timeAtoms t2 = true ->
  exists out, offsetTimeFrame off t1 t2 = inr out.
Proof.
  intros M1 M2.
  destruct (timeStringToMs_total t1 M1) as (s & Hs & _).
  destruct (timeStringToMs_total t2 M2) as (e & He & _).
  unfold offsetTimeFrame. rewrite Hs, He. cbn [bind]. eexists. reflexivity.
Qed.

(** No line makes [convertLine] throw. *)
Lemma convertLine_total (c : Converter) (sLine : wstring) :
  exists r, convertLine c sLine = inr r.
Proof.
  unfold convertLine. destruct (rgxDialogNumber sLine); [eexists; reflexivity|].
  destruct (rgxTimeFrame sLine) as [[t1 t2]|] eqn:E; [|eexists; reflexivity].
  destruct (negb (_timeOffsetMs c =? 0)); [|eexists; reflexivity].
  destruct (rgxTimeFrame_some _ _ _ E) as (_ & M1 & M2).
  destruct (offsetTimeFrame_total (_timeOffsetMs c) t1 t2 M1 M2) as (out & ->).
  eexists. reflexivity.
Qed.

Lemma convertLine_emits (c : Converter) (sLine : wstring) :
  rgxDialogNumber sLine = false ->
  exists s, convertLine c sLine = inr (Some s)
            /\ (rgxTimeFrame sLine = None -> s = htmlEncodeUtf8 sLine).
Proof.
  intros Hn. unfold convertLine. rewrite Hn.
  destruct (rgxTimeFrame sLine) as [[t1 t2]|] eqn:E.
  - destruct (negb (_timeOffsetMs c =? 0)).
    + destruct (rgxTimeFrame_some _ _ _ E) as (_ & M1 & M2).
      destruct (offsetTimeFrame_total (_timeOffsetMs c) t1 t2 M1 M2) as (out & ->).
      eexists. split; [reflexivity | discriminate].
    + eexists. split; [reflexivity | discriminate].
  - eexists. split; [reflexivity | reflexivity].
Qed.

(** C4. The dialog number test is a match of the whole line.  A non-empty
    line of decimal digits only is dropped: the loop writes nothing for it.
    A line with any other character in it is written; unless it is a time
    frame line it is written HTML-encoded.  So [42] is dropped and
    [42 dialogue] is written, unchanged here. *)
Theorem index_line_is_whole_line_match (c : Converter) :
  (forall sLine : wstring,
      sLine <> [] -> Forall (fun x => is_digit x = true) sLine ->
      convertLine c sLine = inr None
      /\ forall rest out,
          convertLoop c (Line sLine rest) out = convertLoop c rest out)
  /\ (forall sLine : wstring,
        Exists (fun x => is_digit x = false) sLine ->
        exists s,
          convertLine c sLine = inr (Some s)
          /\ (rgxTimeFrame sLine = None -> s = htmlEncodeUtf8 sLine)
          /\ forall rest out,
              convertLoop c (Line sLine rest) out
              = convertLoop c rest (out ++ s ++ endl))
  /\ convertLine c (L "42") = inr None
  /\ convertLine c (L "42 dialogue") = inr (Some (L "42 dialogue"))
  /\ outfile (convertFile c "a.srt" (stream_of_lines [L "42"; L "42 dialogue"]))
     = L "WEBVTT" ++ endl ++ endl ++ L "42 dialogue" ++ endl.
Proof.
  split; [|split; [|repeat split; reflexivity]].
  - intros sLine Hne Hd.
    assert (E : convertLine c sLine = inr None).
    { unfold convertLine.
      rewrite (proj2 (rgxDialogNumber_iff sLine) (conj Hne Hd)). reflexivity. }
    split; [exact E|]. intros rest out. cbn [convertLoop]. rewrite E. reflexivity.
  - intros sLine Hx.
    destruct (convertLine_emits c sLine (rgxDialogNumber_non_digit _ Hx))
      as (s & E & Hs).
    exists s. split; [exact E|]. split; [exact Hs|].
    intros rest out. cbn [convertLoop]. rewrite E. reflexivity.
Qed.

Lemma index_line_is_whole_line_match_witness :
  convertLine (Converter_new 0 EmptyString true) (L "2024") = inr None
  /\ exists s,
      convertLine (Converter_new 0 EmptyString true) (L "2024 was a year")
      = inr (Some s)
      /\ (rgxTimeFrame (L "2024 was a year") = None
          -> s = htmlEncodeUtf8 (L "2024 was a year"))
      /\ forall rest out,
          convertLoop (Converter_new 0 EmptyString true)
            (Line (L "2024 was a year") rest) out
          = convertLoop (Converter_new 0 EmptyString true) rest (out ++ s ++ endl).
Proof.
  split.
  - refine (proj1 (proj1 (index_line_is_whole_line_match
                           (Converter_new 0 EmptyString true)) (L "2024") _ _)).
    + discriminate.
    + repeat constructor.
  - apply (proj1 (proj2 (index_line_is_whole_line_match
                           (Converter_new 0 EmptyString true)))
             (L "2024 was a year")).
    apply Exists_cons_tl, Exists_cons_tl, Exists_cons_tl, Exists_cons_tl.
    apply Exists_cons_hd. reflexivity.
Defined.

(** ** The output of [convertFile] *)

Lemma convertLoop_app (c : Converter) (infile : wifstream) : forall out : wstring,
  convertLoop c infile out
  = (fst (convertLoop c infile []), out ++ snd (convertLoop c infile [])).
Proof.
  induction infile as [|sLine rest IH|e]; intros out; cbn [convertLoop].
  - cbn [fst snd]. rewrite app_nil_r. reflexivity.
  - destruct (convertLine c sLine) as [e|[s|]].
    + cbn [fst snd]. rewrite app_nil_r. reflexivity.
    + rewrite (IH (out ++ s ++ endl)), (IH ([] ++ s ++ endl)).
      cbn [fst snd app]. rewrite <- !app_assoc. reflexivity.
    + apply IH.
  - cbn [fst snd]. rewrite app_nil_r. reflexivity.
Qed.

(** C7. Whatever the input, what [convertFile] writes starts with the line
    [WEBVTT] and an empty line; the converted lines follow. *)
Theorem convertFile_writes_header_first
  (c : Converter) (filepath : string) (infile : wifstream) :
  outfile (convertFile c filepath infile)
  = L "WEBVTT" ++ [10] ++ [10] ++ snd (convertLoop c infile []).
Proof.
  unfold convertFile. rewrite convertLoop_app.
  destruct (fst (convertLoop c infile [])); reflexivity.
Qed.

(** ** The directory walk *)

(** The [DT_DIR] case of the loop body is the recursive call. *)
Lemma walkEntry_dir (c : Converter) (recursive : bool) (dirpath item : string)
  (sub : option (list dirent)) :
  walkEntry c recursive dirpath (DT_DIR item sub)
  = if recursive && negb (String.eqb item ".") && negb (String.eqb item "..")
    then convertDirectory c (dirpath ++ DIR_SEPARATOR ++ item)%string recursive sub
    else (0, []).
Proof.
  cbn [walkEntry]. unfold convertDirectory.
  destruct (recursive && negb (String.eqb item ".") && negb (String.eqb item ".."));
    [|reflexivity].
  destruct sub as [ents|]; [|reflexivity].
  match goal with
  | |- (let '(_, _) := ?X in _) = (let '(_, _) := ?Y in _) =>
      assert (E : X = Y); [|rewrite E; reflexivity]
  end.
  generalize 0.
  induction ents as [|ent rest IH]; intros n; [reflexivity|].
  cbn [walkLoop].
  destruct (walkEntry c recursive
              (strip_slashes (dirpath ++ DIR_SEPARATOR ++ item)) ent)
    as [code evs1].
  rewrite IH. reflexivity.
Qed.

Lemma convertFile_code (c : Converter) (filepath : string) (infile : wifstream) :
  ret_code (convertFile c filepath infile)
  = match exception_in c infile with Some _ => 1 | None => 0 end.
Proof.
  unfold convertFile, exception_in.
  destruct (convertLoop c infile header) as [[e|] out]; reflexivity.
Qed.

Lemma convertDirectory_code (c : Converter) (dirpath : string) (recursive : bool)
  (dir : option (list dirent)) :
  fst (convertDirectory c dirpath recursive dir)
  = match dir with
    | None => 1
    | Some ents =>
        if fst (walkLoop c recursive (strip_slashes dirpath) ents 0) =? 0
        then 0 else 1
    end.
Proof.
  unfold convertDirectory. destruct dir as [ents|]; [|reflexivity].
  destruct (walkLoop c recursive (strip_slashes dirpath) ents 0). reflexivity.
Qed.

Lemma walkEntry_code (c : Converter) (recursive : bool) (dirpath : string)
  (ent : dirent) :
  fst (walkEntry c recursive dirpath ent) = 0
  \/ fst (walkEntry c recursive dirpath ent) = 1.
Proof.
  destruct ent as [item content|item content|item sub|item].
  - cbn [walkEntry]. destruct (is_srt_ext (ext_of item)); [|left; reflexivity].
    cbn [fst]. rewrite convertFile_code.
    destruct (exception_in c content); auto.
  - cbn [walkEntry]. destruct (is_srt_ext (ext_of item)); [|left; reflexivity].
    cbn [fst]. rewrite convertFile_code.
    destruct (exception_in c content); auto.
  - rewrite walkEntry_dir.
    destruct (recursive && negb (String.eqb item ".") && negb (String.eqb item ".."));
      [|left; reflexivity].
    rewrite convertDirectory_code. destruct sub as [ents|]; [|auto].
    destruct (_ =? 0); auto.
  - left. reflexivity.
Qed.

Lemma walkLoop_fst_snd (c : Converter) (recursive : bool) (dirpath : string)
  (ent : dirent) (rest : list dirent) (n : Z) :
  fst (walkLoop c recursive dirpath (ent :: rest) n)
  = fst (walkLoop c recursive dirpath rest
           (Int.add n (fst (walkEntry c recursive dirpath ent))))
  /\ snd (walkLoop c recursive dirpath (ent :: rest) n)
     = snd (walkEntry c recursive dirpath ent)
         ++ snd (walkLoop c recursive dirpath rest
                   (Int.add n (fst (walkEntry c recursive dirpath ent)))).
Proof.
  cbn [walkLoop].
  destruct (walkEntry c recursive dirpath ent) as [code evs1]. cbn [fst snd].
  destruct (walkLoop c recursive dirpath rest (Int.add n code)) as [m evs2].
  split; reflexivity.
Qed.

(** While the counter cannot overflow, it stays where it was exactly when
    every entry contributed 0. *)
Lemma walkLoop_code (c : Converter) (recursive : bool) (dirpath : string)
  (ents : list dirent) : forall n : Z,
  0 <= n -> n + Z.of_nat (List.length ents) <= Int.max_int ->
  n <= fst (walkLoop c recursive dirpath ents n)
  /\ (fst (walkLoop c recursive dirpath ents n) = n <->
      Forall (fun ent => fst (walkEntry c recursive dirpath ent) = 0) ents).
Proof.
  induction ents as [|ent rest IH]; intros n Hn Hb.
  - cbn [walkLoop fst]. split; [lia|]. split; [constructor | reflexivity].
  - destruct (walkLoop_fst_snd c recursive dirpath ent rest n) as [-> _].
    cbn [List.length] in Hb.
    assert (Ha : Int.add n (fst (walkEntry c recursive dirpath ent))
                 = n + fst (walkEntry c recursive dirpath ent)).
    { unfold Int.add. apply wrap_id.
      unfold Int.in_range, Int.min_int, Int.max_int in *.
      destruct (walkEntry_code c recursive dirpath ent) as [-> | ->]; lia. }
    rewrite Ha.
    destruct (walkEntry_code c recursive dirpath ent) as [E|E]; rewrite E in *.
    + destruct (IH (n + 0)) as [L1 L2]; [lia | lia |].
      rewrite Z.add_0_r in *. split; [exact L1|].
      rewrite L2. split.
      * intros H. constructor; assumption.
      * intros H. inversion H; assumption.
    + destruct (IH (n + 1)) as [L1 _]; [lia | lia |].
      split; [lia|]. split; [lia|].
      intros H. inversion H; subst. congruence.
Qed.

(** Every entry is visited, whatever the codes of the entries before it. *)
Lemma walkLoop_events (c : Converter) (recursive : bool) (dirpath : string)
  (ents : list dirent) : forall n : Z,
  snd (walkLoop c recursive dirpath ents n)
  = flat_map (fun ent => snd (walkEntry c recursive dirpath ent)) ents.
Proof.
  induction ents as [|ent rest IH]; intros n; [reflexivity|].
  destruct (walkLoop_fst_snd c recursive dirpath ent rest n) as [_ ->].
  rewrite IH. reflexivity.
Qed.

Lemma convertDirectory_events (c : Converter) (dirpath : string) (recursive : bool)
  (ents : list dirent) :
  snd (convertDirectory c dirpath recursive (Some ents))
  = flat_map (fun ent => snd (walkEntry c recursive (strip_slashes dirpath) ent)) ents.
Proof.
  unfold convertDirectory.
  rewrite <- (walkLoop_events c recursive (strip_slashes dirpath) ents 0).
  destruct (walkLoop c recursive (strip_slashes dirpath) ents 0). reflexivity.
Qed.

Lemma entry_failed_iff (c : Converter) (recursive : bool) (dirpath : string)
  (ent : dirent) :
  fst (walkEntry c recursive dirpath ent) <> 0 <-> entry_failed c recursive dirpath ent.
Proof.
  destruct ent as [item content|item content|item sub|item].
  - cbn [walkEntry entry_failed]. destruct (is_srt_ext (ext_of item)); cbn [fst].
    + tauto.
    + split; [congruence | intros [H _]; discriminate].
  - cbn [walkEntry entry_failed]. destruct (is_srt_ext (ext_of item)); cbn [fst].
    + tauto.
    + split; [congruence | intros [H _]; discriminate].
  - rewrite walkEntry_dir. cbn [entry_failed].
    destruct recursive; cbn [andb].
    + destruct (String.eqb_spec item "."); cbn [negb andb fst].
      * split; [congruence | tauto].
      * destruct (String.eqb_spec item ".."); cbn [negb fst].
        -- split; [congruence | tauto].
        -- tauto.
    + cbn [fst]. split; [congruence | intros [H _]; discriminate].
  - cbn [walkEntry entry_failed fst]. tauto.
Qed.


Lemma selected_file_converted (c : Converter) (recursive : bool) (dirpath item : string)
  (content : wifstream) (ents : list dirent) :
  In (DT_REG item content) ents \/ In (DT_LNK item content) ents ->
  is_srt_ext (ext_of item) = true ->
  In (Converted (strip_slashes dirpath ++ DIR_SEPARATOR ++ item)%string
        (convertFile c (strip_slashes dirpath ++ DIR_SEPARATOR ++ item)%string content))
     (snd (convertDirectory c dirpath recursive (Some ents))).
Proof.
  intros Hin Hsel. rewrite convertDirectory_events. apply in_flat_map.
  destruct Hin as [Hin|Hin]; eexists; (split; [exact Hin|]);
    cbn [walkEntry]; rewrite Hsel; cbn [snd In]; left; reflexivity.
Qed.

Lemma convertDirectory_fails_iff (c : Converter) (dirpath : string) (recursive : bool)
  (dir : option (list dirent)) :
  (forall ents, dir = Some ents -> Z.of_nat (List.length ents) <= Int.max_int) ->
  (fst (convertDirectory c dirpath recursive dir) = 0
   \/ fst (convertDirectory c dirpath recursive dir) = 1)
  /\ (fst (convertDirectory c dirpath recursive dir) <> 0 <->
      dir = None
      \/ exists ents ent,
          dir = Some ents /\ In ent ents
          /\ entry_failed c recursive (strip_slashes dirpath) ent).
Proof.
  intros Hb. rewrite convertDirectory_code. destruct dir as [ents|].
  - specialize (Hb ents eq_refl).
    destruct (walkLoop_code c recursive (strip_slashes dirpath) ents 0
                ltac:(lia) ltac:(lia)) as [_ Hz].
    split; [destruct (_ =? 0); auto|].
    destruct (Z.eqb_spec (fst (walkLoop c recursive (strip_slashes dirpath) ents 0)) 0)
      as [E|E].
    + split; [congruence|].
      intros [H|(ents' & ent & [= <-] & Hin & Hf)]; [discriminate|].
      apply Hz in E. rewrite Forall_forall in E.
      apply entry_failed_iff in Hf. exfalso. apply Hf, E, Hin.
    + split; [|discriminate]. intros _. right.
      assert (Hex : Exists (fun ent => fst (walkEntry c recursive
                                              (strip_slashes dirpath) ent) <> 0) ents).
      { apply neg_Forall_Exists_neg.
        - intros ent. destruct (Z.eq_dec (fst (walkEntry c recursive
                                                 (strip_slashes dirpath) ent)) 0); auto.
        - intros HF. apply E, Hz, HF. }
      apply Exists_exists in Hex. destruct Hex as (ent & Hin & Hne).
      exists ents, ent. split; [reflexivity|]. split; [exact Hin|].
      apply entry_failed_iff. exact Hne.
  - split; [auto|]. split; [auto | discriminate].
Qed.

(** C9, as amended.  [convertFile] returns 1 exactly when an exception
    leaves its [try] block, and then reports the path and the cause on the
    error stream; otherwise it returns 0.  The walk visits every entry
    whatever the earlier ones returned, so every selected file is converted.
    [convertDirectory] returns 0 or 1, and (while the [int] counter cannot
    overflow) it returns 1 exactly when the directory itself could not be
    opened, or the conversion of one of its files or of a subdirectory it
    descended into failed. *)
Theorem errors_recovered_per_file (c : Converter) :
  (forall (filepath : string) (infile : wifstream),
      (ret_code (convertFile c filepath infile) <> 0 <->
       exists e, exception_in c infile = Some e)
      /\ (ret_code (convertFile c filepath infile) = 0
          \/ ret_code (convertFile c filepath infile) = 1)
      /\ (forall e,
            exception_in c infile = Some e ->
            cerr (convertFile c filepath infile)
            = ("An error occurred converting " ++ dquote ++ filepath ++ dquote
                 ++ ":" ++ newline ++ what e ++ newline)%string))
  /\ (forall (dirpath : string) (recursive : bool) (ents : list dirent),
        snd (convertDirectory c dirpath recursive (Some ents))
        = flat_map (fun ent => snd (walkEntry c recursive (strip_slashes dirpath) ent))
            ents
        /\ forall item content,
            In (DT_REG item content) ents \/ In (DT_LNK item content) ents ->
            is_srt_ext (ext_of item) = true ->
            In (Converted (strip_slashes dirpath ++ DIR_SEPARATOR ++ item)%string
                  (convertFile c (strip_slashes dirpath ++ DIR_SEPARATOR ++ item)%string
                     content))
               (snd (convertDirectory c dirpath recursive (Some ents))))
  /\ (forall (dirpath : string) (recursive : bool) (dir : option (list dirent)),
        (forall ents, dir = Some ents -> Z.of_nat (List.length ents) <= Int.max_int) ->
        (fst (convertDirectory c dirpath recursive dir) = 0
         \/ fst (convertDirectory c dirpath recursive dir) = 1)
        /\ (fst (convertDirectory c dirpath recursive dir) <> 0 <->
            dir = None
            \/ exists ents ent,
                dir = Some ents /\ In ent ents
                /\ entry_failed c recursive (strip_slashes dirpath) ent)).
Proof.
  split; [|split].
  - intros filepath infile. rewrite convertFile_code.
    unfold convertFile, exception_in.
    destruct (convertLoop c infile header) as [[e|] out]; cbn [fst cerr].
    + split; [split; [eauto | discriminate]|].
      split; [auto|]. intros e' [= <-]. reflexivity.
    + split; [split; [congruence | intros [e H]; discriminate]|].
      split; [auto|]. discriminate.
  - intros dirpath recursive ents.
    split; [apply convertDirectory_events|].
    intros item content. apply selected_file_converted.
  - intros dirpath recursive dir. apply convertDirectory_fails_iff.
Qed.

Lemma errors_recovered_per_file_witness :
  let c := Converter_new 0 EmptyString true in
  let dir := Some [DT_REG "a.srt" (Line (L "1") (Fault (runtime_error "bad")));
                   DT_REG "b.srt" (stream_of_lines [L "2"; L "text"])] in
  (fst (convertDirectory c "subs/" false dir) = 0
   \/ fst (convertDirectory c "subs/" false dir) = 1)
  /\ (fst (convertDirectory c "subs/" false dir) <> 0 <->
      dir = None
      \/ exists ents ent,
          dir = Some ents /\ In ent ents
          /\ entry_failed c false (strip_slashes "subs/") ent).
Proof.
  intros c dir.
  apply (proj2 (proj2 (errors_recovered_per_file c)) "subs/"%string false dir).
  intros ents H. injection H as <-. vm_compute. discriminate.
Defined.

(** C9, as stated, fails on a directory that cannot be opened:
    [convertDirectory] returns 1 although no file and no subdirectory was
    converted, so none of them failed. *)
Lemma unreadable_directory_returns_1 :
  convertDirectory (Converter_new 0 EmptyString true) "missing" true None
  = (1, [Unreadable "missing"])
  /\ ~ (forall (c : Converter) (dirpath : string) (recursive : bool)
               (dir : option (list dirent)),
           fst (convertDirectory c dirpath recursive dir) <> 0 <->
           exists ents ent,
             dir = Some ents /\ In ent ents
             /\ entry_failed c recursive (strip_slashes dirpath) ent).
Proof.
  split; [reflexivity|].
  intros H.
  destruct (proj1 (H (Converter_new 0 EmptyString true) "missing"%string true None))
    as (ents & ent & E & _).
  - cbn. discriminate.
  - discriminate E.
Qed.

(** ** Which names are selected *)

Lemma find_last_of_from_app (c : ascii) (s1 s2 : string) : forall i last : Z,
  find_last_of_from (s1 ++ s2) c i last
  = find_last_of_from s2 c (i + Z.of_nat (String.length s1))
      (find_last_of_from s1 c i last).
Proof.
  induction s1 as [|a s1 IH]; intros i last.
  - cbn [String.append String.length find_last_of_from]. f_equal. lia.
  - cbn [String.append String.length find_last_of_from]. rewrite IH.
    f_equal. lia.
Qed.

Lemma find_last_of_from_absent (c : ascii) (s : string) : forall i last : Z,
  contains_char c s = false -> find_last_of_from s c i last = last.
Proof.
  induction s as [|a s IH]; intros i last H; [reflexivity|].
  cbn [contains_char] in H. apply orb_false_elim in H. destruct H as [Ha Hs].
  cbn [find_last_of_from]. rewrite Ha. apply IH. exact Hs.
Qed.

Lemma substring_all (s : string) : String.substring 0 (String.length s) s = s.
Proof.
  induction s as [|a s IH]; [reflexivity|].
  cbn [String.length String.substring]. rewrite IH. reflexivity.
Qed.

Lemma substring_skip (s1 s2 : string) (m : nat) :
  String.substring (String.length s1) m (s1 ++ s2) = String.substring 0 m s2.
Proof.
  induction s1 as [|a s1 IH]; [reflexivity|].
  cbn [String.length String.append String.substring]. exact IH.
Qed.

Lemma string_length_app (s1 s2 : string) :
  String.length (s1 ++ s2) = (String.length s1 + String.length s2)%nat.
Proof.
  induction s1 as [|a s1 IH]; [reflexivity|].
  cbn [String.append String.length]. rewrite IH. reflexivity.
Qed.

(** A name without a dot: [find_last_of] is [npos], [npos + 1] wraps to 0
    and the "extension" is the whole name. *)
Lemma ext_of_no_dot (item : string) :
  contains_char "." item = false -> ext_of item = item.
Proof.
  intros H. unfold ext_of, find_last_of.
  rewrite find_last_of_from_absent by exact H.
  change (size_add npos 1) with 0. unfold str_substr_from.
  change (Z.to_nat 0) with 0%nat. rewrite Nat.sub_0_r. apply substring_all.
Qed.

Lemma ext_of_last_dot (base e : string) :
  Z.of_nat (String.length base) < npos ->
  contains_char "." e = false ->
  ext_of (base ++ String "." e) = e.
Proof.
  intros Hlen He. unfold ext_of, find_last_of.
  rewrite find_last_of_from_app. cbn [find_last_of_from].
  change (Ascii.eqb "." ".") with true. cbv iota.
  rewrite find_last_of_from_absent by exact He.
  unfold size_add, npos in *. rewrite Z.mod_small by lia.
  unfold str_substr_from.
  replace (Z.to_nat (0 + Z.of_nat (String.length base) + 1))
    with (String.length (base ++ ".")) by (rewrite string_length_app; cbn; lia).
  replace (base ++ String "." e)%string with ((base ++ ".") ++ e)%string.
  2:{ clear. induction base as [|a b IH]; [reflexivity|].
      cbn [String.append]. rewrite IH. reflexivity. }
  rewrite substring_skip, string_length_app.
  replace (String.length (base ++ ".") + String.length e - String.length (base ++ "."))%nat
    with (String.length e) by lia.
  apply substring_all.
Qed.

Lemma last_dot_split (c : ascii) (s : string) :
  contains_char c s = false
  \/ exists s1 s2, s = (s1 ++ String c s2)%string /\ contains_char c s2 = false.
Proof.
  induction s as [|a s IH]; [left; reflexivity|].
  destruct IH as [Hs|(s1 & s2 & -> & H2)].
  - destruct (Ascii.eqb_spec a c) as [->|Hne].
    + right. exists EmptyString, s. split; [reflexivity | exact Hs].
    + left. cbn [contains_char]. rewrite Hs.
      destruct (Ascii.eqb_spec a c); [contradiction | reflexivity].
  - right. exists (String a s1), s2. split; [reflexivity | exact H2].
Qed.

Lemma string_app_assoc (s1 s2 s3 : string) :
  ((s1 ++ s2) ++ s3 = s1 ++ (s2 ++ s3))%string.
Proof.
  induction s1 as [|a s1 IH]; [reflexivity|].
  cbn [String.append]. rewrite IH. reflexivity.
Qed.

(** What the test [ext == "srt" || ext == "SRT"] accepts: the names that end
    in [.srt] or [.SRT], and also the two names [srt] and [SRT] themselves,
    which have no dot. *)
Lemma is_srt_ext_iff (item : string) :
  Z.of_nat (String.length item) < npos ->
  is_srt_ext (ext_of item) = true <->
  has_srt_extension item \/ item = "srt"%string \/ item = "SRT"%string.
Proof.
  intros Hlen. unfold is_srt_ext, has_srt_extension.
  rewrite orb_true_iff, !String.eqb_eq. split.
  - intros H. destruct (last_dot_split "." item) as [Hd|(s1 & s2 & -> & Hd)].
    + rewrite (ext_of_no_dot item Hd) in H. tauto.
    + rewrite ext_of_last_dot in H; [|rewrite string_length_app in Hlen; lia|exact Hd].
      left. exists s1. destruct H as [-> | ->]; auto.
  - intros [(base & [-> | ->])|[-> | ->]].
    + left. apply (ext_of_last_dot base "srt"); [|reflexivity].
      rewrite string_length_app in Hlen. lia.
    + right. apply (ext_of_last_dot base "SRT"); [|reflexivity].
      rewrite string_length_app in Hlen. lia.
    + left. reflexivity.
    + right. reflexivity.
Qed.

Lemma srt_has_no_extension : ~ has_srt_extension "srt".
Proof.
  intros (base & [H|H]); apply (f_equal String.length) in H;
    rewrite string_length_app in H; cbn [String.length] in H; lia.
Qed.

(** C8.  The walk converts the regular files and symbolic links whose name
    ends in [.srt] or [.SRT], skips [.Srt], [.txt] and entries of other types,
    and with the recursive flag descends into the subdirectories other than
    [.] and [..].  It also converts a file whose whole name is [srt]: that
    name has no dot, so [find_last_of] returns [npos], [npos + 1] is 0 and the
    "extension" compared with ["srt"] is the name itself. *)
Theorem walk_converts_file_named_srt :
  let c := Converter_new 0 EmptyString true in
  find_last_of "srt" "." = npos
  /\ ext_of "srt" = "srt"%string
  /\ ~ has_srt_extension "srt"
  /\ converted_paths (snd (convertDirectory c "subs" false (Some [DT_REG "srt" Eof])))
     = ["subs/srt"%string]
  /\ converted_paths (snd (convertDirectory c "subs" false (Some sample_listing)))
     = ["subs/a.srt"; "subs/b.SRT"; "subs/srt"]%string
  /\ converted_paths (snd (convertDirectory c "subs" true (Some sample_listing)))
     = ["subs/a.srt"; "subs/b.SRT"; "subs/season1/x.srt"; "subs/srt"]%string
  /\ fst (convertDirectory c "subs" true (Some sample_listing)) = 0.
Proof.
  cbv zeta. split; [reflexivity|]. split; [reflexivity|].
  split; [exact srt_has_no_extension|].
  repeat split; vm_compute; reflexivity.
Qed.

(** ** The bound on the minute and second fields is needed *)

Lemma zero_pad_2_val (n : Z) (x y : Z) :
  0 <= n -> is_digit x = true -> is_digit y = true ->
  zero_pad 2 (to_wstring n) = [x; y] -> n = 10 * (x - 48) + (y - 48).
Proof.
  intros Hn Hx Hy E.
  rewrite <- (to_wstring_val n Hn), <- (digits_val_zero_pad 2), E.
  apply digits_val_2; assumption.
Qed.

(** Conversely to [roundtrip_below_60]: a time string that is written back
    with its own digits has minute and second fields below 60. *)
Lemma roundtrip_only_below_60 (t : wstring) (ms : Z) :
  match_atoms timeAtoms t = true ->
  timeStringToMs t = inr ms ->
  msToVttTimeString ms = comma_to_period t ->
  minutes_field t < 60 /\ seconds_field t < 60.
Proof.
  intros M P F.
  apply timeAtoms_shape in M.
  destruct M as (a & b & c & d & e & f & g & h & i & -> & D).
  pose proof (time_digits_bounds a b c d e f g h i D) as B.
  rewrite (timeStringToMs_digits a b c d e f g h i D) in P.
  apply (f_equal (fun r : result Z => match r with inr v => v | inl _ => 0 end)) in P.
  cbv beta iota in P.
  rewrite (comma_to_period_digits a b c d e f g h i D) in F.
  assert (R : 0 <= ms <= Int.max_int) by (unfold Int.max_int; lia).
  destruct (time_fields_bounds ms ltac:(lia)) as (_ & Hm & Hs & Hr).
  pose proof (zero_pad_2_width (ms mod 3600000 / 60000) ltac:(lia)) as Lm.
  pose proof (zero_pad_2_width (ms mod 60000 / 1000) ltac:(lia)) as Ls.
  pose proof (zero_pad_3_width _ Hr) as Lr.
  rewrite (msToVttTimeString_fields ms R) in F. unfold format_fields in F.
  assert (Dc : is_digit c = true /\ is_digit d = true
               /\ is_digit e = true /\ is_digit f = true).
  { rewrite !is_digit_iff. lia. }
  destruct Dc as (Dc & Dd & De & Df).
  unfold minutes_field, seconds_field, field. cbn [skipn firstn].
  rewrite !digits_val_2 by assumption.
  set (Xh := zero_pad 2 (to_wstring (ms / 3600000))) in *.
  set (Xm := zero_pad 2 (to_wstring (ms mod 3600000 / 60000))) in *.
  set (Xs := zero_pad 2 (to_wstring (ms mod 60000 / 1000))) in *.
  set (Xr := zero_pad 3 (to_wstring (ms mod 1000))) in *.
  assert (Lh : List.length Xh = 2%nat).
  { apply (f_equal (@List.length Z)) in F.
    rewrite !length_app, Lm, Ls, Lr in F. cbn [L List.length] in F. lia. }
  assert (Em : Xm = [c; d] /\ Xs = [e; f]).
  { destruct Xh as [|h1 [|h2 [|? ?]]]; try discriminate Lh.
    destruct Xm as [|m1 [|m2 [|? ?]]]; try discriminate Lm.
    destruct Xs as [|s1 [|s2 [|? ?]]]; try discriminate Ls.
    cbn [app L] in F. injection F as _ _ -> -> -> -> _.
    split; reflexivity. }
  destruct Em as [Em Es]. subst Xm Xs.
  apply zero_pad_2_val in Em; [|lia|assumption|assumption].
  apply zero_pad_2_val in Es; [|lia|assumption|assumption].
  lia.
Qed.

(** ** A whole file *)

(** Two cues, the second with a character from the escaped range. *)
Example convertFile_two_cues :
  convertFile (Converter_new 0 EmptyString true) "movie.srt"
    (stream_of_lines
       [ L "1";
         L "00:00:01,000 --> 00:00:02,500";
         L "Hello, world!";
         L EmptyString;
         L "2";
         L "00:00:03,000 --> 00:00:04,000";
         L "caf" ++ [233] ])
  = mkFileResult 0
      (L "WEBVTT" ++ endl ++ endl
         ++ L "00:00:01.000 --> 00:00:02.500" ++ endl
         ++ L "Hello, world!" ++ endl
         ++ endl
         ++ L "00:00:03.000 --> 00:00:04.000" ++ endl
         ++ L "caf&#233;" ++ endl)
      EmptyString.
Proof. reflexivity. Qed.

(** The same file moved by 1.5 s towards the start: the first cue starts
    at zero. *)
Example convertFile_two_cues_shifted :
  outfile
    (convertFile (Converter_new (-1500) EmptyString true) "movie.srt"
       (stream_of_lines
          [ L "1";
            L "00:00:01,000 --> 00:00:02,500";
            L "Hello, world!";
            L EmptyString;
            L "2";
            L "00:00:03,000 --> 00:00:04,000";
            L "caf" ++ [233] ]))
  = L "WEBVTT" ++ endl ++ endl
      ++ L "00:00:00.000 --> 00:00:01.000" ++ endl
      ++ L "Hello, world!" ++ endl
      ++ endl
      ++ L "00:00:01.500 --> 00:00:02.500" ++ endl
      ++ L "caf&#233;" ++ endl.
Proof. reflexivity. Qed.

(** * Further properties of the code *)

(** ** Parsing is positional *)

Lemma timeStringToMs_any_separators (a b c d e f g h i x y z : Z) :
  Forall (fun k => is_digit k = true) [a; b; c; d; e; f; g; h; i] ->
  timeStringToMs [a; b; x; c; d; y; e; f; z; g; h; i]
  = inr ((10 * (a - 48) + (b - 48)) * 3600000
         + (10 * (c - 48) + (d - 48)) * 60000
         + (10 * (e - 48) + (f - 48)) * 1000
         + (100 * (g - 48) + 10 * (h - 48) + (i - 48))).
Proof.
  intros D. pose proof (time_digits_bounds a b c d e f g h i D) as B.
  repeat match goal with
         | H : Forall _ (_ :: _) |- _ => inversion H; clear H; subst
         end.
  unfold timeStringToMs, substr, substr_from.
  cbn [List.length Nat.ltb Nat.leb firstn skipn bind ret].
  rewrite !stoi_2, stoi_3 by assumption.
  cbn [bind]. unfold ret, Int.add, Int.mul.
  assert (R : forall v, 0 <= v <= 400000000 -> Int.wrap v = v).
  { intros v Hv. apply wrap_id.
    unfold Int.in_range, Int.min_int, Int.max_int. lia. }
  repeat match goal with
         | |- context [Int.wrap ?v] => rewrite (R v) by lia
         end.
  reflexivity.
Qed.

(** X1. [timeStringToMs] reads the digits at the positions 0-1, 3-4, 6-7 and
    9-11 and never looks at the three characters between them; it adds up
    hours, minutes, seconds and milliseconds without checking that minutes
    and seconds are below 60, so its result lies between 0 and 362439999
    (the value of [99:99:99,999]). *)
Theorem timeStringToMs_reads_digit_positions (a b c d e f g h i x y z : Z) :
  Forall (fun k => is_digit k = true) [a; b; c; d; e; f; g; h; i] ->
  exists ms,
    timeStringToMs [a; b; x; c; d; y; e; f; z; g; h; i] = inr ms
    /\ ms = digits_val 0 [a; b] * 3600000 + digits_val 0 [c; d] * 60000
            + digits_val 0 [e; f] * 1000 + digits_val 0 [g; h; i]
    /\ 0 <= ms <= 362439999.
Proof.
  intros D. pose proof (time_digits_bounds a b c d e f g h i D) as B.
  eexists. split; [apply timeStringToMs_any_separators; exact D|].
  assert (Ds : is_digit a = true /\ is_digit b = true /\ is_digit c = true
               /\ is_digit d = true /\ is_digit e = true /\ is_digit f = true
               /\ is_digit g = true /\ is_digit h = true /\ is_digit i = true).
  { rewrite !is_digit_iff. lia. }
  destruct Ds as (Da & Db & Dc & Dd & De & Df & Dg & Dh & Di).
  rewrite !digits_val_2, digits_val_3 by assumption.
  split; [reflexivity | lia].
Qed.

Lemma timeStringToMs_reads_digit_positions_witness :
  exists ms,
    timeStringToMs (L "01x75y99z004") = inr ms
    /\ ms = digits_val 0 (L "01") * 3600000 + digits_val 0 (L "75") * 60000
            + digits_val 0 (L "99") * 1000 + digits_val 0 (L "004")
    /\ 0 <= ms <= 362439999.
Proof.
  apply (timeStringToMs_reads_digit_positions 48 49 55 53 57 57 48 48 52 120 121 122).
  repeat constructor.
Defined.

(** X2. A string of fewer than nine characters makes [timeStringToMs]
    throw: whatever the first fields give, [time.substr(9)] is out of
    range. *)
Theorem timeStringToMs_short_throws (time : wstring) :
  (List.length time < 9)%nat -> exists e, timeStringToMs time = inl e.
Proof.
  intros Hlen. unfold timeStringToMs.
  destruct (bind (substr time 0 2) stoi) as [e|hours]; [eexists; reflexivity|].
  cbn [bind].
  destruct (bind (substr time 3 2) stoi) as [e|minutes]; [eexists; reflexivity|].
  cbn [bind].
  destruct (bind (substr time 6 2) stoi) as [e|seconds]; [eexists; reflexivity|].
  cbn [bind]. unfold substr_from.
  replace (List.length time <? 9)%nat with true
    by (symmetry; apply Nat.ltb_lt; exact Hlen).
  eexists. reflexivity.
Qed.

Lemma timeStringToMs_short_throws_witness :
  exists e, timeStringToMs (L "00:00:01") = inl e.
Proof.
  apply (timeStringToMs_short_throws (L "00:00:01")). cbn. lia.
Defined.

(** ** Formatting, then parsing *)

Lemma zero_pad_2_lt100 (n : Z) :
  0 <= n < 100 -> zero_pad 2 (to_wstring n) = [48 + n / 10; 48 + n mod 10].
Proof.
  intros H. destruct (Z.lt_ge_cases n 10).
  - rewrite to_wstring_1 by lia. unfold zero_pad.
    cbn [List.length Nat.sub repeat app]. f_equal; [|f_equal]; zdm.
  - rewrite to_wstring_2 by lia. reflexivity.
Qed.

Lemma zero_pad_3_lt1000 (n : Z) :
  0 <= n < 1000 ->
  zero_pad 3 (to_wstring n) = [48 + n / 100; 48 + (n / 10) mod 10; 48 + n mod 10].
Proof.
  intros H. destruct (Z.lt_ge_cases n 10).
  - rewrite to_wstring_1 by lia. unfold zero_pad.
    cbn [List.length Nat.sub repeat app]. f_equal; [|f_equal; [|f_equal]]; zdm.
  - destruct (Z.lt_ge_cases n 100).
    + rewrite to_wstring_2 by lia. unfold zero_pad.
      cbn [List.length Nat.sub repeat app]. f_equal; [|f_equal]; zdm.
    + rewrite to_wstring_3 by lia. reflexivity.
Qed.

Lemma digit_of (n : Z) : 0 <= n < 10 -> is_digit (48 + n) = true.
Proof. intros H. apply is_digit_iff. lia. Qed.

Lemma parse_of_format (ms : Z) :
  0 <= ms < 360000000 -> timeStringToMs (msToVttTimeString ms) = inr ms.
Proof.
  intros Hms.
  rewrite msToVttTimeString_fields by (unfold Int.max_int; lia).
  unfold format_fields.
  destruct (time_fields_bounds ms ltac:(lia)) as (Hh & Hm & Hs & Hr).
  assert (Hh' : ms / 3600000 < 100) by (apply Z.div_lt_upper_bound; lia).
  rewrite !zero_pad_2_lt100, zero_pad_3_lt1000 by lia.
  set (hq := ms / 3600000) in *.
  set (mq := ms mod 3600000 / 60000) in *.
  set (sq := ms mod 60000 / 1000) in *.
  set (rq := ms mod 1000) in *.
  cbn [app L]. rewrite timeStringToMs_any_separators.
  - f_equal.
    assert (E : ms = hq * 3600000 + mq * 60000 + sq * 1000 + rq).
    { subst hq mq sq rq.
      pose proof (Z.div_mod ms 3600000 ltac:(lia)) as E1.
      pose proof (Z.div_mod (ms mod 3600000) 60000 ltac:(lia)) as E2.
      pose proof (Z.div_mod (ms mod 60000) 1000 ltac:(lia)) as E3.
      rewrite (Z.mod_mod_divide ms 3600000 60000) in E2 by (exists 60; reflexivity).
      rewrite (Z.mod_mod_divide ms 60000 1000) in E3 by (exists 60; reflexivity).
      lia. }
    etransitivity; [|symmetry; exact E].
    clear E. clearbody hq mq sq rq. zdm.
  - repeat constructor; apply digit_of; clearbody hq mq sq rq; zdm.
Qed.

(** X3. Below 100 hours, parsing what [msToVttTimeString] wrote gives the
    number of milliseconds back. *)
Theorem format_then_parse (ms : Z) :
  0 <= ms < 360000000 -> timeStringToMs (msToVttTimeString ms) = inr ms.
Proof. exact (parse_of_format ms). Qed.

Lemma format_then_parse_witness :
  timeStringToMs (msToVttTimeString 359999999) = inr 359999999.
Proof. apply (format_then_parse 359999999). lia. Defined.

(** X4. From 100 hours on the hour field has three digits, every later
    field sits one place further right, and parsing what
    [msToVttTimeString] wrote throws [invalid_argument]: the minutes are
    looked for where the first colon is. *)
Theorem format_then_parse_100_hours (ms : Z) :
  360000000 <= ms <= Int.max_int ->
  timeStringToMs (msToVttTimeString ms) = inl (invalid_argument "stoi").
Proof.
  intros Hms. unfold Int.max_int in Hms.
  rewrite msToVttTimeString_fields by (unfold Int.max_int; lia).
  unfold format_fields.
  assert (Hh : 100 <= ms / 3600000 < 1000).
  { split; [apply Z.div_le_lower_bound; lia | apply Z.div_lt_upper_bound; lia]. }
  rewrite (to_wstring_3 (ms / 3600000)) by lia.
  set (hq := ms / 3600000) in *.
  unfold zero_pad at 1. cbn [List.length Nat.sub repeat app L].
  change (Z.of_N (N_of_ascii ":")) with 58.
  unfold timeStringToMs, substr.
  cbn [List.length Nat.ltb Nat.leb firstn skipn bind ret].
  rewrite stoi_2 by (apply digit_of; clearbody hq; zdm).
  cbn [bind].
  destruct (zero_pad 2 (to_wstring (ms mod 3600000 / 60000))) as [|m1 ms'];
    reflexivity.
Qed.

Lemma format_then_parse_100_hours_witness :
  timeStringToMs (msToVttTimeString 360000000) = inl (invalid_argument "stoi").
Proof.
  apply (format_then_parse_100_hours 360000000). unfold Int.max_int. lia.
Defined.

(** X5. For a string of the form [HH:MM:SS,mmm], writing back what was
    parsed gives the same digits exactly when its minute and second fields
    are both below 60. *)
Theorem roundtrip_iff_below_60 (t : wstring) (ms : Z) :
  match_atoms timeAtoms t = true ->
  timeStringToMs t = inr ms ->
  (msToVttTimeString ms = comma_to_period t <->
   minutes_field t < 60 /\ seconds_field t < 60).
Proof.
  intros M P. split.
  - intros F. exact (roundtrip_only_below_60 t ms M P F).
  - intros [Hm Hs].
    destruct (roundtrip_below_60 t M Hm Hs) as (ms' & P' & _ & F).
    rewrite P in P'. injection P' as <-. exact F.
Qed.

Lemma roundtrip_iff_below_60_witness :
  msToVttTimeString 5999000 = comma_to_period (L "00:99:59,000") <->
  minutes_field (L "00:99:59,000") < 60 /\ seconds_field (L "00:99:59,000") < 60.
Proof.
  apply (roundtrip_iff_below_60 (L "00:99:59,000") 5999000); reflexivity.
Defined.

(** ** What [convertFile] does with a whole stream *)

Lemma stream_fault_lines (ls : list wstring) : stream_fault (stream_of_lines ls) = None.
Proof. induction ls as [|l ls IH]; [reflexivity | exact IH]. Qed.

Lemma stream_of_lines_app (ls1 ls2 : list wstring) :
  stream_of_lines (ls1 ++ ls2) = lines_then ls1 (stream_of_lines ls2).
Proof.
  induction ls1 as [|l ls1 IH]; [reflexivity|].
  cbn [app stream_of_lines lines_then]. rewrite IH. reflexivity.
Qed.

(** The loop over some lines followed by more input: the lines are
    written, then the loop goes on with the rest. *)
Lemma convertLoop_lines_then (c : Converter) (ls : list wstring) (rest : wifstream) :
  forall out : wstring,
    convertLoop c (lines_then ls rest) out
    = convertLoop c rest (snd (convertLoop c (stream_of_lines ls) out)).
Proof.
  induction ls as [|l ls IH]; intros out; [reflexivity|].
  cbn [lines_then stream_of_lines convertLoop].
  destruct (convertLine_total c l) as ([s|] & ->); apply IH.
Qed.

Lemma convertLoop_written_lines (c : Converter) (ls : list wstring) :
  forall out : wstring,
    convertLoop c (stream_of_lines ls) out
    = (None, out ++ List.concat (map (fun s => s ++ endl) (written_lines c ls))).
Proof.
  unfold written_lines.
  induction ls as [|l ls IH]; intros out.
  - cbn [stream_of_lines convertLoop flat_map map List.concat]. rewrite app_nil_r.
    reflexivity.
  - cbn [stream_of_lines convertLoop flat_map].
    destruct (convertLine_total c l) as ([s|] & ->).
    + rewrite IH. cbn [app map List.concat]. rewrite <- !app_assoc. reflexivity.
    + rewrite IH. reflexivity.
Qed.


(** X7. When the stream raises an exception after some lines, the lines
    before it have been written: what is left in the output file is what
    the conversion of those lines alone would have written, and the call
    returns 1 with the path and the cause on the error stream. *)
Theorem convertFile_keeps_partial_output
  (c : Converter) (filepath : string) (ls : list wstring) (e : exn) :
  convertFile c filepath (lines_then ls (Fault e))
  = mkFileResult 1
      (outfile (convertFile c filepath (stream_of_lines ls)))
      ("An error occurred converting " ++ dquote ++ filepath ++ dquote ++ ":"
         ++ newline ++ what e ++ newline)%string.
Proof.
  unfold convertFile. rewrite convertLoop_lines_then.
  rewrite convertLoop_written_lines. reflexivity.
Qed.

(** X8. The conversion works line by line: the output for the lines
    [ls1 ++ ls2] is the output for [ls1] followed by what the loop writes for
    [ls2]. *)
Theorem convertFile_line_by_line
  (c : Converter) (filepath : string) (ls1 ls2 : list wstring) :
  outfile (convertFile c filepath (stream_of_lines (ls1 ++ ls2)))
  = outfile (convertFile c filepath (stream_of_lines ls1))
      ++ snd (convertLoop c (stream_of_lines ls2) []).
Proof.
  unfold convertFile. rewrite stream_of_lines_app, convertLoop_lines_then.
  rewrite !convertLoop_written_lines. cbn [snd outfile app]. reflexivity.
Qed.

Lemma written_lines_count (c : Converter) (ls : list wstring) :
  List.length (written_lines c ls)
  = List.length (filter (fun sLine => negb (rgxDialogNumber sLine)) ls).
Proof.
  unfold written_lines. induction ls as [|l ls IH]; [reflexivity|].
  cbn [flat_map filter]. rewrite length_app, IH.
  destruct (rgxDialogNumber l) eqn:E.
  - unfold convertLine. rewrite E. reflexivity.
  - destruct (convertLine_emits c l E) as (s & -> & _). reflexivity.
Qed.

(** X9. After the header the output consists of one line, ended by a
    newline, for every input line that is not a dialog number, in the order
    of the input; empty input lines are among them. *)
Theorem convertFile_one_line_per_line
  (c : Converter) (filepath : string) (ls : list wstring) :
  outfile (convertFile c filepath (stream_of_lines ls))
  = header ++ List.concat (map (fun s => s ++ endl) (written_lines c ls))
  /\ List.length (written_lines c ls)
     = List.length (filter (fun sLine => negb (rgxDialogNumber sLine)) ls)
  /\ written_lines c (ls ++ [[]]) = written_lines c ls ++ [[]].
Proof.
  split; [|split].
  - unfold convertFile. rewrite convertLoop_written_lines. reflexivity.
  - apply written_lines_count.
  - unfold written_lines. rewrite flat_map_app. reflexivity.
Qed.

(** ** More on [htmlEncodeUtf8] *)

Lemma escape_char_length (c : Z) :
  List.length (escape_char c) = if in_latin1_supplement c then 6%nat else 1%nat.
Proof.
  destruct (in_latin1_supplement c) eqn:E.
  - rewrite escape_char_latin1 by (apply in_latin1_supplement_iff; exact E).
    reflexivity.
  - unfold escape_char. rewrite E. reflexivity.
Qed.

Lemma html_escape_length (s : wstring) :
  List.length (html_escape s)
  = (List.length s + 5 * List.length (filter in_latin1_supplement s))%nat.
Proof.
  unfold html_escape. induction s as [|c s IH]; [reflexivity|].
  cbn [flat_map filter]. rewrite length_app, IH, escape_char_length.
  destruct (in_latin1_supplement c); cbn [List.length]; lia.
Qed.

(** X10. Every character from 160 to 255 makes the line five characters
    longer, and nothing else changes its length. *)
Theorem htmlEncodeUtf8_length (s : wstring) :
  List.length (htmlEncodeUtf8 s)
  = (List.length s + 5 * List.length (filter in_latin1_supplement s))%nat.
Proof. rewrite htmlEncodeUtf8_html_escape. apply html_escape_length. Qed.

(** X11. Encoding a line in two pieces and joining the results is encoding
    the whole line: the in-place rewriting never lets one character
    influence the encoding of another. *)
Theorem htmlEncodeUtf8_app (s1 s2 : wstring) :
  htmlEncodeUtf8 (s1 ++ s2) = htmlEncodeUtf8 s1 ++ htmlEncodeUtf8 s2.
Proof.
  rewrite !htmlEncodeUtf8_html_escape. unfold html_escape. apply flat_map_app.
Qed.

(** X12. [htmlEncodeUtf8] leaves a line as it is exactly when the line has
    no character from 160 to 255. *)
Theorem htmlEncodeUtf8_unchanged_iff (s : wstring) :
  htmlEncodeUtf8 s = s <-> Forall (fun c => ~ 160 <= c <= 255) s.
Proof.
  rewrite htmlEncodeUtf8_html_escape. split.
  - intros E. apply (f_equal (@List.length Z)) in E.
    rewrite html_escape_length in E.
    assert (Hn : filter in_latin1_supplement s = []).
    { destruct (filter in_latin1_supplement s); [reflexivity|].
      cbn [List.length] in E. lia. }
    apply Forall_forall. intros c Hin Hr.
    apply in_latin1_supplement_iff in Hr.
    assert (Hf : In c (filter in_latin1_supplement s))
      by (apply filter_In; split; assumption).
    rewrite Hn in Hf. exact Hf.
  - intros H. apply html_escape_fixed.
    eapply Forall_impl; [|exact H].
    intros c Hc. destruct (in_latin1_supplement c) eqn:E; [|reflexivity].
    apply in_latin1_supplement_iff in E. contradiction.
Qed.

(** ** More on the directory walk *)

Lemma walkEntry_not_recursive (c : Converter) (dirpath : string) (ent : dirent) :
  walkEntry c false dirpath (forget_sub ent) = walkEntry c false dirpath ent.
Proof.
  destruct ent as [item content|item content|item sub|item]; reflexivity.
Qed.

Lemma walkLoop_not_recursive (c : Converter) (dirpath : string) (ents : list dirent) :
  forall n : Z,
    walkLoop c false dirpath (map forget_sub ents) n = walkLoop c false dirpath ents n.
Proof.
  induction ents as [|ent rest IH]; intros n; [reflexivity|].
  cbn [map walkLoop]. rewrite walkEntry_not_recursive.
  destruct (walkEntry c false dirpath ent) as [code evs]. rewrite IH. reflexivity.
Qed.

(** X13. Without the recursive flag nothing below a subdirectory matters:
    the walk returns the same code and does the same conversions whatever
    the subdirectories contain, readable or not.  The entries [.] and [..]
    are skipped with the flag as well. *)
Theorem walk_ignores_what_it_does_not_enter
  (c : Converter) (dirpath : string) :
  (forall ents : list dirent,
      convertDirectory c dirpath false (Some (map forget_sub ents))
      = convertDirectory c dirpath false (Some ents))
  /\ (forall (recursive : bool) (sub : option (list dirent)),
        walkEntry c recursive dirpath (DT_DIR "." sub) = (0, [])
        /\ walkEntry c recursive dirpath (DT_DIR ".." sub) = (0, [])).
Proof.
  split.
  - intros ents. unfold convertDirectory. rewrite walkLoop_not_recursive.
    reflexivity.
  - intros recursive sub. rewrite !walkEntry_dir.
    destruct recursive; split; reflexivity.
Qed.

Lemma walk_code_zero_iff (c : Converter) (dirpath : string) (recursive : bool)
  (ents : list dirent) :
  Z.of_nat (List.length ents) <= Int.max_int ->
  (fst (convertDirectory c dirpath recursive (Some ents)) = 0 <->
   Forall (fun ent => fst (walkEntry c recursive (strip_slashes dirpath) ent) = 0) ents)
  /\ (fst (convertDirectory c dirpath recursive (Some ents)) = 0
      \/ fst (convertDirectory c dirpath recursive (Some ents)) = 1).
Proof.
  intros Hb. rewrite convertDirectory_code.
  destruct (walkLoop_code c recursive (strip_slashes dirpath) ents 0
              ltac:(lia) ltac:(lia)) as [_ Hz].
  destruct (Z.eqb_spec (fst (walkLoop c recursive (strip_slashes dirpath) ents 0)) 0)
    as [E|E].
  - split; [|auto]. split; [intros _; apply Hz; exact E | reflexivity].
  - split; [|auto]. split; [discriminate | intros H; apply Hz in H; contradiction].
Qed.

(** X14. A listing walked in two parts: the conversions of [ents1 ++ ents2]
    are those of [ents1] followed by those of [ents2], in the order in which
    [readdir] delivers the entries, and the code returned is 1 as soon as it
    is 1 for one of the parts (the counter being unable to overflow). *)
Theorem walk_of_two_parts
  (c : Converter) (dirpath : string) (recursive : bool) (ents1 ents2 : list dirent) :
  Z.of_nat (List.length (ents1 ++ ents2)) <= Int.max_int ->
  snd (convertDirectory c dirpath recursive (Some (ents1 ++ ents2)))
  = snd (convertDirectory c dirpath recursive (Some ents1))
      ++ snd (convertDirectory c dirpath recursive (Some ents2))
  /\ fst (convertDirectory c dirpath recursive (Some (ents1 ++ ents2)))
     = Z.max (fst (convertDirectory c dirpath recursive (Some ents1)))
             (fst (convertDirectory c dirpath recursive (Some ents2))).
Proof.
  intros Hb. split.
  - rewrite !convertDirectory_events. apply flat_map_app.
  - rewrite length_app in Hb.
    destruct (walk_code_zero_iff c dirpath recursive (ents1 ++ ents2)) as [Z12 B12];
      [rewrite length_app; lia|].
    destruct (walk_code_zero_iff c dirpath recursive ents1) as [Z1 B1]; [lia|].
    destruct (walk_code_zero_iff c dirpath recursive ents2) as [Z2 B2]; [lia|].
    rewrite Forall_app in Z12.
    destruct B1 as [E1|E1]; destruct B2 as [E2|E2]; rewrite E1, E2; cbn [Z.max Z.compare].
    + apply Z12. split; [apply Z1, E1 | apply Z2, E2].
    + destruct B12 as [E|E]; [|exact E].
      apply Z12 in E. destruct E as [_ E]. apply Z2 in E. congruence.
    + destruct B12 as [E|E]; [|exact E].
      apply Z12 in E. destruct E as [E _]. apply Z1 in E. congruence.
    + destruct B12 as [E|E]; [|exact E].
      apply Z12 in E. destruct E as [E _]. apply Z1 in E. congruence.
Qed.

Lemma walk_of_two_parts_witness :
  let c := Converter_new 0 EmptyString true in
  let ents1 := [DT_REG "a.srt" (Fault (runtime_error "bad"))] in
  let ents2 := [DT_REG "b.srt" Eof; DT_REG "c.txt" Eof] in
  snd (convertDirectory c "subs" false (Some (ents1 ++ ents2)))
  = snd (convertDirectory c "subs" false (Some ents1))
      ++ snd (convertDirectory c "subs" false (Some ents2))
  /\ fst (convertDirectory c "subs" false (Some (ents1 ++ ents2)))
     = Z.max (fst (convertDirectory c "subs" false (Some ents1)))
             (fst (convertDirectory c "subs" false (Some ents2))).
Proof.
  intros c ents1 ents2.
  apply (walk_of_two_parts c "subs" false ents1 ents2).
  vm_compute. discriminate.
Defined.

(** X15. Which regular file the walk converts, by its name (shorter than
    [npos]): the names that end in [.srt] or [.SRT], and the two names [srt]
    and [SRT]; no other name, in particular none whose extension is spelt
    with mixed case. *)
Theorem walk_converts_exactly
  (c : Converter) (recursive : bool) (dirpath item : string) (content : wifstream) :
  Z.of_nat (String.length item) < npos ->
  (has_srt_extension item \/ item = "srt"%string \/ item = "SRT"%string ->
   converted_paths (snd (walkEntry c recursive dirpath (DT_REG item content)))
   = [(dirpath ++ DIR_SEPARATOR ++ item)%string])
  /\ (~ (has_srt_extension item \/ item = "srt"%string \/ item = "SRT"%string) ->
      walkEntry c recursive dirpath (DT_REG item content) = (0, [])).
Proof.
  intros Hlen. pose proof (is_srt_ext_iff item Hlen) as I.
  cbn [walkEntry]. split.
  - intros H. apply I in H. rewrite H. reflexivity.
  - intros H. destruct (is_srt_ext (ext_of item)); [|reflexivity].
    exfalso. apply H, I. reflexivity.
Qed.

Lemma walk_converts_exactly_witness :
  (has_srt_extension "a.Srt" \/ "a.Srt"%string = "srt"%string
   \/ "a.Srt"%string = "SRT"%string ->
   converted_paths
     (snd (walkEntry (Converter_new 0 EmptyString true) true "subs" (DT_REG "a.Srt" Eof)))
   = [("subs" ++ DIR_SEPARATOR ++ "a.Srt")%string])
  /\ (~ (has_srt_extension "a.Srt" \/ "a.Srt"%string = "srt"%string
         \/ "a.Srt"%string = "SRT"%string) ->
      walkEntry (Converter_new 0 EmptyString true) true "subs" (DT_REG "a.Srt" Eof)
      = (0, [])).
Proof.
  apply (walk_converts_exactly (Converter_new 0 EmptyString true) true "subs" "a.Srt" Eof).
  vm_compute. reflexivity.
Defined.

(** ** The output path *)

Lemma string_app_inv_head (s a b : string) : (s ++ a = s ++ b)%string -> a = b.
Proof.
  induction s as [|x s IH]; [trivial|].
  cbn [String.append]. intros H. injection H as H. exact (IH H).
Qed.

Lemma contains_char_app (c : ascii) (s1 s2 : string) :
  contains_char c (s1 ++ s2) = contains_char c s1 || contains_char c s2.
Proof.
  induction s1 as [|a s1 IH]; [reflexivity|].
  cbn [String.append contains_char]. rewrite IH. apply orb_assoc.
Qed.

Lemma is_dot_srt_length (s : string) : is_dot_srt s = true -> String.length s = 4%nat.
Proof.
  destruct s as [|d [|x [|y [|z [|w s]]]]]; try discriminate. reflexivity.
Qed.

Lemma is_dot_srt_no_slash (s : string) :
  is_dot_srt s = true -> contains_char "/" s = false.
Proof.
  destruct s as [|d [|x [|y [|z [|w s]]]]]; try discriminate.
  cbn [is_dot_srt contains_char]. intros H.
  repeat (apply andb_prop in H; destruct H as [H ?]).
  repeat match goal with
         | E : Ascii.eqb (to_lower ?v) _ = true |- _ =>
             destruct (Ascii.eqb_spec v "/") as [->|_]; [discriminate E | clear E]
         | E : Ascii.eqb ?v "." = true |- _ =>
             apply Ascii.eqb_eq in E; subst v
         end.
  reflexivity.
Qed.

(** A suffix that matches is removed. *)
Lemma regex_replace_srt_suffix (base e : string) :
  is_dot_srt e = true -> regex_replace_srt (base ++ e) = base.
Proof.
  intros He. induction base as [|a base IH].
  - cbn [String.append]. destruct e as [|x e]; [reflexivity|].
    cbn [regex_replace_srt]. rewrite He. reflexivity.
  - cbn [String.append regex_replace_srt].
    replace (is_dot_srt (String a (base ++ e))) with false.
    + rewrite IH. reflexivity.
    + symmetry. destruct (is_dot_srt (String a (base ++ e))) eqn:E; [|reflexivity].
      apply is_dot_srt_length in E, He.
      cbn [String.length] in E. rewrite string_length_app in E. lia.
Qed.

(** Either nothing is removed, or a matching suffix is. *)
Lemma regex_replace_srt_cases (s : string) :
  regex_replace_srt s = s
  \/ exists e, is_dot_srt e = true /\ s = (regex_replace_srt s ++ e)%string.
Proof.
  induction s as [|a s IH]; [left; reflexivity|].
  cbn [regex_replace_srt]. destruct (is_dot_srt (String a s)) eqn:E.
  - right. exists (String a s). split; [exact E | reflexivity].
  - destruct IH as [IH|(e & He & IH)].
    + left. rewrite IH. reflexivity.
    + right. exists e. split; [exact He|].
      cbn [String.append]. rewrite <- IH. reflexivity.
Qed.

Lemma regex_replace_srt_unchanged (s : string) :
  (forall base e, s = (base ++ e)%string -> is_dot_srt e = false) ->
  regex_replace_srt s = s.
Proof.
  intros H. destruct (regex_replace_srt_cases s) as [E|(e & He & E)]; [exact E|].
  rewrite (H _ _ E) in He. discriminate.
Qed.

Lemma regex_replace_srt_no_char (c : ascii) (s : string) :
  contains_char c s = false -> contains_char c (regex_replace_srt s) = false.
Proof.
  induction s as [|a s IH]; [reflexivity|].
  cbn [contains_char regex_replace_srt]. intros H.
  apply orb_false_elim in H. destruct H as [Ha Hs].
  destruct (is_dot_srt (String a s)); [reflexivity|].
  cbn [contains_char]. rewrite Ha, (IH Hs). reflexivity.
Qed.

Lemma regex_replace_srt_after_slash (p f : string) :
  regex_replace_srt (p ++ String "/" f) = (p ++ String "/" (regex_replace_srt f))%string.
Proof.
  induction p as [|a p IH].
  - cbn [String.append regex_replace_srt].
    replace (is_dot_srt (String "/" f)) with false; [reflexivity|].
    destruct f as [|x [|y [|z [|w f]]]]; reflexivity.
  - cbn [String.append regex_replace_srt].
    replace (is_dot_srt (String a (p ++ String "/" f))) with false.
    + rewrite IH. reflexivity.
    + symmetry. destruct (is_dot_srt (String a (p ++ String "/" f))) eqn:E;
        [|reflexivity].
      apply is_dot_srt_no_slash in E. cbn [contains_char] in E.
      rewrite contains_char_app in E. cbn [contains_char] in E.
      rewrite Ascii.eqb_refl in E. cbn [orb] in E.
      rewrite !orb_true_r in E. discriminate E.
Qed.

Lemma after_last_absent (c : ascii) (s : string) :
  contains_char c s = false -> after_last c s = s.
Proof.
  intros H. unfold after_last, find_last_of.
  rewrite find_last_of_from_absent by exact H.
  change (size_add npos 1) with 0. unfold str_substr_from.
  change (Z.to_nat 0) with 0%nat. rewrite Nat.sub_0_r. apply substring_all.
Qed.

Lemma after_last_split (c : ascii) (base e : string) :
  Z.of_nat (String.length base) < npos ->
  contains_char c e = false ->
  after_last c (base ++ String c e) = e.
Proof.
  intros Hlen He. unfold after_last, find_last_of.
  rewrite find_last_of_from_app. cbn [find_last_of_from].
  rewrite Ascii.eqb_refl.
  rewrite find_last_of_from_absent by exact He.
  unfold size_add, npos in *. rewrite Z.mod_small by lia.
  unfold str_substr_from.
  replace (Z.to_nat (0 + Z.of_nat (String.length base) + 1))
    with (String.length (base ++ String c EmptyString))
    by (rewrite string_length_app; cbn [String.length]; lia).
  replace (base ++ String c e)%string
    with ((base ++ String c EmptyString) ++ e)%string
    by (rewrite string_app_assoc; reflexivity).
  rewrite substring_skip, string_length_app.
  replace (String.length (base ++ String c EmptyString) + String.length e
           - String.length (base ++ String c EmptyString))%nat
    with (String.length e) by lia.
  apply substring_all.
Qed.

(** What is kept of a path when an output directory is set has no
    separator in it. *)
Lemma after_last_no_char (c : ascii) (s : string) :
  Z.of_nat (String.length s) < npos -> contains_char c (after_last c s) = false.
Proof.
  intros Hlen. destruct (last_dot_split c s) as [H|(s1 & s2 & -> & H)].
  - rewrite after_last_absent; assumption.
  - rewrite after_last_split; [exact H | | exact H].
    rewrite string_length_app in Hlen. lia.
Qed.

Lemma regex_replace_srt_length (s : string) :
  (String.length (regex_replace_srt s) <= String.length s)%nat.
Proof.
  destruct (regex_replace_srt_cases s) as [E|(e & He & E)].
  - rewrite E. lia.
  - rewrite E at 2. rewrite string_length_app. lia.
Qed.

(** X16. Without an output directory the output path is the input path
    with [.vtt] in the place of a final [.srt], in whatever mix of upper and
    lower case that is spelt; a path that does not end so gets [.vtt]
    appended. *)
Theorem outputPath_renames (c : Converter) :
  _outputDir c = EmptyString ->
  (forall base e : string,
      is_dot_srt e = true -> outputPath c (base ++ e) = (base ++ ".vtt")%string)
  /\ (forall filepath : string,
        (forall base e, filepath = (base ++ e)%string -> is_dot_srt e = false) ->
        outputPath c filepath = (filepath ++ ".vtt")%string).
Proof.
  intros HD. unfold outputPath. rewrite HD. split.
  - intros base e He. rewrite regex_replace_srt_suffix by exact He. reflexivity.
  - intros filepath H. rewrite regex_replace_srt_unchanged by exact H. reflexivity.
Qed.

Lemma outputPath_renames_witness :
  (forall base e : string,
      is_dot_srt e = true ->
      outputPath (Converter_new 0 EmptyString true) (base ++ e) = (base ++ ".vtt")%string)
  /\ (forall filepath : string,
        (forall base e, filepath = (base ++ e)%string -> is_dot_srt e = false) ->
        outputPath (Converter_new 0 EmptyString true) filepath
        = (filepath ++ ".vtt")%string).
Proof.
  apply (outputPath_renames (Converter_new 0 EmptyString true)). reflexivity.
Defined.

(** X17. The output path never is the input path, with or without an
    output directory: the output is not written under the input's own
    path. *)
Theorem outputPath_differs (c : Converter) (filepath : string) :
  Z.of_nat (String.length filepath) + 4 < npos ->
  outputPath c filepath <> filepath.
Proof.
  intros Hlen Heq. unfold outputPath in Heq.
  pose proof (regex_replace_srt_length filepath) as HR.
  destruct (_outputDir c) as [|d0 D'].
  - destruct (regex_replace_srt_cases filepath) as [E|(e & He & E)].
    + rewrite E in Heq. apply (f_equal String.length) in Heq.
      rewrite string_length_app in Heq. cbn [String.length] in Heq. lia.
    + pose proof (eq_trans Heq E) as H2. apply string_app_inv_head in H2.
      subst e. discriminate He.
  - remember (String d0 D') as D eqn:ED. clear ED d0 D'.
    remember (after_last "/" (regex_replace_srt filepath ++ ".vtt")) as A eqn:EA.
    assert (HA : contains_char "/" A = false).
    { rewrite EA. apply after_last_no_char.
      rewrite string_length_app. cbn [String.length]. lia. }
    change (D ++ DIR_SEPARATOR ++ A)%string with (D ++ String "/" A)%string in Heq.
    assert (HL : String.length filepath = (String.length D + S (String.length A))%nat).
    { rewrite <- Heq, string_length_app. reflexivity. }
    destruct (regex_replace_srt_cases filepath) as [E|(e & He & E)].
    + rewrite E, <- Heq, string_app_assoc in EA. cbn [String.append] in EA.
      rewrite after_last_split in EA.
      * apply (f_equal String.length) in EA. rewrite string_length_app in EA.
        cbn [String.length] in EA. lia.
      * lia.
      * rewrite contains_char_app, HA. reflexivity.
    + pose proof (is_dot_srt_no_slash e He) as Hes.
      pose proof (is_dot_srt_length e He) as Hel.
      assert (HRl : String.length filepath
                    = (String.length (regex_replace_srt filepath) + 4)%nat).
      { rewrite E at 1. rewrite string_length_app. lia. }
      destruct (last_dot_split "/" (regex_replace_srt filepath))
        as [Hn|(P & Q & EP & HQ)].
      * assert (Hc : contains_char "/" filepath = false).
        { rewrite E, contains_char_app, Hn, Hes. reflexivity. }
        rewrite <- Heq, contains_char_app in Hc. cbn [contains_char] in Hc.
        rewrite Ascii.eqb_refl in Hc. cbn [orb] in Hc.
        rewrite orb_true_r in Hc. discriminate Hc.
      * rewrite EP in HRl. rewrite string_length_app in HRl.
        cbn [String.length] in HRl.
        rewrite EP, string_app_assoc in EA. cbn [String.append] in EA.
        rewrite after_last_split in EA;
          [|lia|rewrite contains_char_app, HQ; reflexivity].
        assert (EA' : A = (Q ++ e)%string).
        { rewrite <- (after_last_split "/" D A) by (assumption || lia).
          rewrite Heq, E, EP, string_app_assoc. cbn [String.append].
          apply after_last_split; [lia|].
          rewrite contains_char_app, HQ, Hes. reflexivity. }
        rewrite EA' in EA. apply string_app_inv_head in EA.
        subst e. discriminate He.
Qed.

Lemma outputPath_differs_witness :
  outputPath (mkConverter 0 "subs" true) "subs/a.vtt" <> "subs/a.vtt"%string.
Proof.
  apply (outputPath_differs (mkConverter 0 "subs" true) "subs/a.vtt").
  vm_compute. reflexivity.
Defined.

(** X18. The spelling of the extension is lost in the output path: two
    input paths that differ only in the case of their final [.srt], such as
    [x.srt] and [x.SRT] that the walk both converts, are written to the same
    output file. *)
Theorem outputPath_same_for_both_cases (c : Converter) (base e1 e2 : string) :
  is_dot_srt e1 = true -> is_dot_srt e2 = true ->
  outputPath c (base ++ e1) = outputPath c (base ++ e2).
Proof.
  intros H1 H2. unfold outputPath.
  rewrite !regex_replace_srt_suffix by assumption. reflexivity.
Qed.

Lemma outputPath_same_for_both_cases_witness :
  is_srt_ext (ext_of "x.srt") = true /\ is_srt_ext (ext_of "x.SRT") = true
  /\ outputPath (Converter_new 0 EmptyString true) ("subs/x" ++ ".srt")
     = outputPath (Converter_new 0 EmptyString true) ("subs/x" ++ ".SRT").
Proof.
  split; [reflexivity|]. split; [reflexivity|].
  apply (outputPath_same_for_both_cases (Converter_new 0 EmptyString true)
           "subs/x" ".srt" ".SRT"); reflexivity.
Defined.

(** X19. With an output directory only the file name counts: a file [f] of
    any directory is written to the output directory under the name of [f]
    with [.vtt] for its final [.srt], so files of the same name found in
    different directories are written to one and the same output file. *)
Theorem outputPath_in_output_directory (c : Converter) (dir f : string) :
  _outputDir c <> EmptyString ->
  contains_char "/" f = false ->
  Z.of_nat (String.length dir) < npos ->
  outputPath c (dir ++ DIR_SEPARATOR ++ f)
  = (_outputDir c ++ DIR_SEPARATOR ++ regex_replace_srt f ++ ".vtt")%string.
Proof.
  intros HD Hf Hlen. unfold outputPath.
  destruct (_outputDir c) as [|d0 D']; [congruence|].
  f_equal. f_equal.
  change (dir ++ DIR_SEPARATOR ++ f)%string with (dir ++ String "/" f)%string.
  rewrite regex_replace_srt_after_slash, string_app_assoc.
  cbn [String.append]. apply after_last_split; [exact Hlen|].
  rewrite contains_char_app, (regex_replace_srt_no_char "/" f Hf). reflexivity.
Qed.

Lemma outputPath_in_output_directory_witness :
  outputPath (mkConverter 0 "out" true) ("season1" ++ DIR_SEPARATOR ++ "e01.srt")
  = outputPath (mkConverter 0 "out" true) ("season2" ++ DIR_SEPARATOR ++ "e01.srt").
Proof.
  rewrite (outputPath_in_output_directory (mkConverter 0 "out" true) "season1" "e01.srt");
    [|discriminate|reflexivity|vm_compute; reflexivity].
  rewrite (outputPath_in_output_directory (mkConverter 0 "out" true) "season2" "e01.srt");
    [|discriminate|reflexivity|vm_compute; reflexivity].
  reflexivity.
Defined.

(** ** Shifting is exact *)

(** X20. With a non-zero offset, as long as the shifted times stay between
    0 and 100 hours, the two times written on a time frame line, read back
    by [timeStringToMs], are the two times of the input line plus the
    offset: nothing is lost in parsing, adding and formatting. *)
Theorem shifted_times_read_back (c : Converter) (t1 t2 : wstring) (s e : Z) :
  _timeOffsetMs c <> 0 ->
  match_atoms timeAtoms t1 = true -> match_atoms timeAtoms t2 = true ->
  timeStringToMs t1 = inr s -> timeStringToMs t2 = inr e ->
  0 <= s + _timeOffsetMs c < 360000000 ->
  0 <= e + _timeOffsetMs c < 360000000 ->
  exists u1 u2,
    convertLine c (t1 ++ L " --> " ++ t2) = inr (Some (u1 ++ L " --> " ++ u2))
    /\ timeStringToMs u1 = inr (s + _timeOffsetMs c)
    /\ timeStringToMs u2 = inr (e + _timeOffsetMs c).
Proof.
  intros Hoff M1 M2 Ps Pe Bs Be.
  exists (msToVttTimeString (s + _timeOffsetMs c)),
         (msToVttTimeString (e + _timeOffsetMs c)).
  split; [|split; apply parse_of_format; assumption].
  unfold convertLine.
  rewrite (time_prefix_not_number t1 _ M1), (rgxTimeFrame_groups t1 t2 M1 M2).
  replace (_timeOffsetMs c =? 0) with false by (symmetry; apply Z.eqb_neq; exact Hoff).
  cbn [negb].
  rewrite (offsetTimeFrame_in_range _ _ _ s e Ps Pe)
    by (unfold Int.in_range, Int.min_int, Int.max_int; lia).
  unfold clamp0. rewrite !Z.max_r by lia. reflexivity.
Qed.

Lemma shifted_times_read_back_witness :
  exists u1 u2,
    convertLine (Converter_new 90000 EmptyString true)
      (L "00:59:30,250" ++ L " --> " ++ L "00:59:45,000")
    = inr (Some (u1 ++ L " --> " ++ u2))
    /\ timeStringToMs u1 = inr (3570250 + 90000)
    /\ timeStringToMs u2 = inr (3585000 + 90000).
Proof.
  apply (shifted_times_read_back (Converter_new 90000 EmptyString true)
           (L "00:59:30,250") (L "00:59:45,000") 3570250 3585000).
  - vm_compute. discriminate.
  - reflexivity.
  - reflexivity.
  - reflexivity.
  - reflexivity.
  - vm_compute. split; [discriminate | reflexivity].
  - vm_compute. split; [discriminate | reflexivity].
Defined.
